(** * lIJfe: Conway's Game of Life on an 8x8 LED matrix

    A shallow embedding of the two sketches of [lIJfe.ino] and the
    properties of their simulation engine.

    - [Packed]: the first sketch, whose boards are arrays of eight bytes
      (one byte per row, column [c] stored in bit [c]).
    - [Grid]: the second sketch, whose boards are 8x8 arrays of [boolean].

    The sketches are written against global arrays, so every function is a
    computation in a state-and-fault monad over the sketch's globals.  An
    array access outside its bounds is a fault ([None]). *)

From Stdlib Require Import ZArith Lia Bool.
From stdpp Require Import base list strings.

Local Open Scope Z_scope.

(** ** Computations over the sketch globals *)

Definition M (St A : Type) : Type := St -> option (A * St).

Definition ret {St A} (a : A) : M St A := fun s => Some (a, s).

Definition bind {St A B} (m : M St A) (k : A -> M St B) : M St B :=
  fun s => match m s with
           | Some (a, s') => k a s'
           | None => None
           end.

Definition modify {St} (f : St -> St) : M St unit := fun s => Some (tt, f s).

Declare Scope sketch_scope.
Delimit Scope sketch_scope with sketch.
Notation "'do' x <- m ; k" := (bind m (fun x => k))
  (at level 10, x name, m at level 100, k at level 200) : sketch_scope.
Notation "'do' ' p <- m ; k" := (bind m (fun x => match x with p => k end))
  (at level 10, p pattern, m at level 100, k at level 200) : sketch_scope.
Notation "m ;; k" := (bind m (fun _ => k))
  (at level 100, k at level 200, right associativity) : sketch_scope.
Local Open Scope sketch_scope.

(** [when c m] is the statement [if (c) { m }]. *)
Definition when {St} (c : bool) (m : M St unit) : M St unit :=
  if c then m else ret tt.

(** [for_loop xs acc body] is a counted [for] loop whose control variable
    takes the values [xs] in order; [acc] carries the locals the body
    assigns. *)
Fixpoint for_loop {St A B} (xs : list A) (acc : B) (body : B -> A -> M St B)
  : M St B :=
  match xs with
  | [] => ret acc
  | x :: xs' => do acc' <- body acc x; for_loop xs' acc' body
  end.

(** A [for] loop whose body assigns no local. *)
Definition for_each {St A} (xs : list A) (body : A -> M St unit) : M St unit :=
  for_loop xs tt (fun _ x => body x).

(** [triple P m Q]: from every state satisfying [P], [m] returns, with a
    result and in a state satisfying [Q]. *)
Definition triple {St A} (P : St -> Prop) (m : M St A) (Q : A -> St -> Prop) : Prop :=
  forall s, P s -> exists a s', m s = Some (a, s') /\ Q a s'.

(** ** Integer types of the target (AVR: 8-bit [byte], signed 8-bit [char],
    32-bit [unsigned long]) *)

Definition to_byte (z : Z) : Z := z mod 256.
Definition to_char (z : Z) : Z := (z + 128) mod 256 - 128.
Definition to_ulong (z : Z) : Z := z mod 2 ^ 32.

(** The bit macros of the Arduino core:
    [bitRead(v,b) = ((v) >> (b)) & 0x01],
    [bitSet(v,b) = ((v) |= (1UL << (b)))],
    [bitClear(v,b) = ((v) &= ~(1UL << (b)))]; the value assigned to a
    [byte] lvalue is returned here. *)
Definition bitRead (value bit : Z) : Z := Z.land (Z.shiftr value bit) 1.
Definition bitSet (value bit : Z) : Z :=
  to_byte (Z.lor value (to_ulong (Z.shiftl 1 bit))).
Definition bitClear (value bit : Z) : Z :=
  to_byte (Z.land value (to_ulong (Z.lnot (to_ulong (Z.shiftl 1 bit))))).

Definition NUMROWS : Z := 8.
Definition NUMCOLS : Z := 8.

(** Calls into the display driver, the timer and the serial port, in the
    order they are made. *)
Inductive event : Type :=
  | SetColumn (addr col value : Z)
  | Delay (ms : Z)
  | PinModeInput (pin : Z)
  | SerialPrint (text : string)
  | SerialPrintln (text : string)
  | SerialPrintDec (n : Z).

Definition newline : string := String (Ascii.ascii_of_nat 10) EmptyString.

(** Truth value of an integer used as a condition. *)
Definition truthy (z : Z) : bool := negb (z =? 0).

(** Array subscript: [a[i]] faults outside the array. *)
Definition subscript {A} (a : list A) (i : Z) : option A :=
  if i <? 0 then None else a !! Z.to_nat i.

Definition in_bounds {A} (a : list A) (i : Z) : bool :=
  (0 <=? i) && (i <? Z.of_nat (length a)).

(** ** The rule of the game *)

(** The branches of [calculateNewGameBoard], in the order they are tried:
    [a] is the cell, [n] its number of live neighbours. *)
Definition life (a : bool) (n : Z) : bool :=
  if a && (n <? 2) then false
  else if a && ((n =? 2) || (n =? 3)) then true
  else if a && (n >? 3) then false
  else if negb a && (n =? 3) then true
  else false.

(** The transition table of the specification: [a'] is the successor of a
    cell [a] with [n] live neighbours. *)
Definition decision_table (a : bool) (n : Z) (a' : bool) : Prop :=
  (a = true -> n < 2 -> a' = false) /\
  (a = true -> n = 2 \/ n = 3 -> a' = true) /\
  (a = true -> n > 3 -> a' = false) /\
  (a = false -> n = 3 -> a' = true) /\
  (a = false -> n <> 3 -> a' = false).

(** The three locals of the classification, in the order
    [(stable, dead, repeat)]. *)
Definition stable_of (f : bool * bool * bool) : bool := f.1.1.
Definition dead_of (f : bool * bool * bool) : bool := f.1.2.
Definition repeat_of (f : bool * bool * bool) : bool := f.2.

(** * The byte-packed sketch *)
Module Packed.

Inductive array : Type := Gameboard | Newgameboard | Oldgameboard | Ij.

Record state : Type := State {
  gameboard : list Z;
  newgameboard : list Z;
  oldgameboard : list Z;
  ij : list Z;
  rng : Z;              (* hidden state of the C library's random() *)
  adc_reads : nat;      (* number of analogRead conversions made so far *)
  trace : list event    (* external calls, oldest first *)
}.

Definition get_array (a : array) (s : state) : list Z :=
  match a with
  | Gameboard => gameboard s
  | Newgameboard => newgameboard s
  | Oldgameboard => oldgameboard s
  | Ij => ij s
  end.

Definition set_array (a : array) (l : list Z) (s : state) : state :=
  match a with
  | Gameboard =>
      State l (newgameboard s) (oldgameboard s) (ij s) (rng s) (adc_reads s) (trace s)
  | Newgameboard =>
      State (gameboard s) l (oldgameboard s) (ij s) (rng s) (adc_reads s) (trace s)
  | Oldgameboard =>
      State (gameboard s) (newgameboard s) l (ij s) (rng s) (adc_reads s) (trace s)
  | Ij =>
      State (gameboard s) (newgameboard s) (oldgameboard s) l (rng s) (adc_reads s) (trace s)
  end.

Definition load (a : array) (i : Z) : M state Z :=
  fun s => match subscript (get_array a s) i with
           | Some v => Some (v, s)
           | None => None
           end.

Definition store (a : array) (i : Z) (v : Z) : M state unit :=
  fun s => if in_bounds (get_array a s) i
           then Some (tt, set_array a (<[Z.to_nat i := v]> (get_array a s)) s)
           else None.

Definition emit (e : event) : M state unit :=
  modify (fun s => State (gameboard s) (newgameboard s) (oldgameboard s) (ij s)
                         (rng s) (adc_reads s) (trace s ++ [e])).

(** Power-on contents of the globals (lines 32-76). *)
Definition initial_state : state :=
  {| gameboard := [0; 48; 96; 32; 0; 0; 0; 0];
     newgameboard := [0; 0; 0; 0; 0; 0; 0; 0];
     oldgameboard := [0; 0; 0; 0; 0; 0; 0; 0];
     ij := [195; 195; 0; 3; 195; 231; 126; 60];
     rng := 1;
     adc_reads := 0%nat;
     trace := [] |}.

(** [lc.setColumn(0, 7 - r, sprite[r])] for [r = 0..7] (lines 84-88). *)
Definition setSprite (sprite : array) : M state unit :=
  for_each (seqZ 0 8) (fun r =>
    do v <- load sprite r;
    emit (SetColumn 0 (7 - r) v)).

Definition displayGameBoard : M state unit := setSprite Gameboard.

(** Lines 228-234; [row] and [col] are [char] values. *)
Definition isCellAlive (row col : Z) : M state bool :=
  if (row <? 0) || (col <? 0) || (row >=? NUMROWS) || (col >=? NUMCOLS)
  then ret false
  else do g <- load Gameboard row;
       ret (bitRead g col =? 1).

(** Lines 209-222; [row] and [col] are [byte] values, the deltas are
    [char], each sum is an [int] converted to the [char] parameters of
    [isCellAlive], and [count] is a [byte]. *)
Definition countNeighbors (row col : Z) : M state Z :=
  for_loop (seqZ (-1) 3) 0 (fun count rowDelta =>
    for_loop (seqZ (-1) 3) count (fun count colDelta =>
      if negb ((colDelta =? 0) && (rowDelta =? 0))
      then do alive <- isCellAlive (to_char (rowDelta + row))
                                   (to_char (colDelta + col));
           ret (if alive then to_byte (count + 1) else count)
      else ret count)).

(** [bitRead(gameboard[row], col)] *)
Definition gameboard_bit (row col : Z) : M state Z :=
  do g <- load Gameboard row; ret (bitRead g col).

(** [bitSet(newgameboard[row], col)] and [bitClear(newgameboard[row], col)] *)
Definition newgameboard_bitSet (row col : Z) : M state unit :=
  do v <- load Newgameboard row; store Newgameboard row (bitSet v col).
Definition newgameboard_bitClear (row col : Z) : M state unit :=
  do v <- load Newgameboard row; store Newgameboard row (bitClear v col).

(** The body of the inner loop of [calculateNewGameBoard] (lines 243-260). *)
Definition calculateNewGameBoard_cell (row col : Z) : M state unit :=
  do numNeighbors <- countNeighbors row col;
  do b1 <- gameboard_bit row col;
  if truthy b1 && (numNeighbors <? 2) then
    newgameboard_bitClear row col
  else
  do b2 <- gameboard_bit row col;
  if truthy b2 && ((numNeighbors =? 2) || (numNeighbors =? 3)) then
    newgameboard_bitSet row col
  else
  do b3 <- gameboard_bit row col;
  if truthy b3 && (numNeighbors >? 3) then
    newgameboard_bitClear row col
  else
  do b4 <- gameboard_bit row col;
  if negb (truthy b4) && (numNeighbors =? 3) then
    newgameboard_bitSet row col
  else
    newgameboard_bitClear row col.

(** Lines 240-263. *)
Definition calculateNewGameBoard : M state unit :=
  for_each (seqZ 0 NUMROWS) (fun row =>
    for_each (seqZ 0 NUMCOLS) (fun col =>
      calculateNewGameBoard_cell row col)).

(** The body of the [for] loop of [swapGameBoards] (lines 273-283), on the
    three locals [stable], [dead] and [repeat]. *)
Definition swapGameBoards_row (flags : bool * bool * bool) (row : Z)
  : M state (bool * bool * bool) :=
  let '(stable, dead, repeat) := flags in
  do g <- load Gameboard row;
  do n <- load Newgameboard row;
  let stable := if negb (g =? n) then false else stable in
  do g <- load Gameboard row;
  let dead := if negb (g =? 0) then false else dead in
  do o <- load Oldgameboard row;
  do n <- load Newgameboard row;
  let repeat := if negb (o =? n) then false else repeat in
  do g <- load Gameboard row;
  store Oldgameboard row g;;
  do n <- load Newgameboard row;
  store Gameboard row n;;
  ret (stable, dead, repeat).

(** The [for] loop of [swapGameBoards] (lines 269-284): classifies the
    transition and shifts the boards.  The three locals are returned. *)
Definition swapGameBoards_loop : M state (bool * bool * bool) :=
  for_loop (seqZ 0 NUMROWS) (true, true, true) swapGameBoards_row.

Section Environment.

(** The board's surroundings: the [n]-th analog conversion on a pin, and
    the C library's [random()] as a step on its hidden state, which
    returns a value in [0, RANDOM_MAX]. *)
Variable analog_sample : nat -> Z -> Z.
Variable libc_random : Z -> Z * Z.

Definition RANDOM_MAX : Z := 2 ^ 31 - 1.

Definition RANDOMIZER_ANALOG_PIN : Z := 4.
Definition UNCONNECTED_ANALOG_PIN : Z := 3.

Definition analogRead (pin : Z) : M state Z :=
  fun s => Some (analog_sample (adc_reads s) pin,
                 State (gameboard s) (newgameboard s) (oldgameboard s) (ij s)
                       (rng s) (S (adc_reads s)) (trace s)).

(** Arduino core: [randomSeed(seed)] calls [srandom(seed)] unless the seed
    is zero; [random(lo, hi)] is [lo] when [lo >= hi] and otherwise
    [random() % (hi - lo) + lo]. *)
Definition randomSeed (seed : Z) : M state unit :=
  when (negb (to_ulong seed =? 0))
    (modify (fun s => State (gameboard s) (newgameboard s) (oldgameboard s) (ij s)
                            (to_ulong seed) (adc_reads s) (trace s))).

Definition random (howsmall howbig : Z) : M state Z :=
  if howsmall >=? howbig then ret howsmall
  else fun s =>
    let '(r, next) := libc_random (rng s) in
    Some (Z.rem r (howbig - howsmall) + howsmall,
          State (gameboard s) (newgameboard s) (oldgameboard s) (ij s)
                next (adc_reads s) (trace s)).

(** Lines 188-195:
    [bitWrite(gameboard[row], col, !bitRead(gameboard[row], col))] in a
    loop of [random(20,100)] rounds. *)
Definition perturbInitialGameBoard : M state unit :=
  do numChanges <- random 20 100;
  for_each (seqZ 0 numChanges) (fun _ =>
    do row <- random 0 NUMROWS;
    do col <- random 0 NUMCOLS;
    do g <- load Gameboard row;
    if negb (truthy (bitRead g col))
    then do v <- load Gameboard row; store Gameboard row (bitSet v col)
    else do v <- load Gameboard row; store Gameboard row (bitClear v col)).

(** Lines 136-183.  [USE_EEPROM] is not defined, so the EEPROM branches
    are compiled out. *)
Definition setUpInitialBoard : M state unit :=
  do seed <- analogRead UNCONNECTED_ANALOG_PIN;
  emit (PinModeInput RANDOMIZER_ANALOG_PIN);;
  do randomizerPinValue <- analogRead RANDOMIZER_ANALOG_PIN;
  if randomizerPinValue >? 900 then
    emit (SerialPrint "Seeding RNG with ");;
    emit (SerialPrintDec seed);;
    emit (SerialPrint newline);;
    randomSeed seed;;
    perturbInitialGameBoard
  else if randomizerPinValue >? 300 then
    emit (SerialPrint "Seeding RNG with ");;
    emit (SerialPrintDec seed);;
    emit (SerialPrint newline);;
    randomSeed seed;;
    perturbInitialGameBoard
  else
    emit (SerialPrintln "Using basic board.").

(** Lines 268-294. *)
Definition swapGameBoards : M state unit :=
  do '(stable, dead, repeat) <- swapGameBoards_loop;
  when dead (setSprite Ij;; emit (Delay 1000));;
  when (stable || repeat)
    (emit (Delay 2000);; setUpInitialBoard;; setSprite Gameboard).

(** One pass of [loop()] (lines 121-131); the clock value it reads first is
    never used. *)
Definition loop : M state unit :=
  displayGameBoard;;
  emit (Delay 333);;
  calculateNewGameBoard;;
  swapGameBoards.

End Environment.

(** ** The board as a grid of cells, and the rule of the game *)

(** Column [c] of row [r] is bit [c] of byte [r]. *)
Definition cell (b : list Z) (r c : Z) : bool :=
  match subscript b r with
  | Some v => Z.testbit v c
  | None => false
  end.

(** A cell of the board surrounded by dead cells. *)
Definition alive (b : list Z) (r c : Z) : bool :=
  if (r <? 0) || (c <? 0) || (r >=? NUMROWS) || (c >=? NUMCOLS)
  then false else cell b r c.

(** Number of live cells among the eight cells around [(r, c)]. *)
Definition neighbours (b : list Z) (r c : Z) : Z :=
  Z.b2z (alive b (r - 1) (c - 1)) + Z.b2z (alive b (r - 1) c)
  + Z.b2z (alive b (r - 1) (c + 1))
  + Z.b2z (alive b r (c - 1)) + Z.b2z (alive b r (c + 1))
  + Z.b2z (alive b (r + 1) (c - 1)) + Z.b2z (alive b (r + 1) c)
  + Z.b2z (alive b (r + 1) (c + 1)).

Definition next_cell (b : list Z) (r c : Z) : bool :=
  life (cell b r c) (neighbours b r c).

(** [bitSet] or [bitClear] of column [c], as the cell is to live or die. *)
Definition write_cell (v c : Z) (a : bool) : Z :=
  if a then bitSet v c else bitClear v c.

(** A row of the successor, written column by column over [v]. *)
Definition write_row (b : list Z) (r v : Z) : Z :=
  fold_left (fun v c => write_cell v c (next_cell b r c)) (seqZ 0 NUMCOLS) v.

(** The successor of a board. *)
Definition advance (b : list Z) : list Z :=
  (fun r => write_row b r 0) <$> seqZ 0 NUMROWS.

Definition all_dead : list Z := replicate 8 0.

Definition is_byte (v : Z) : Prop := 0 <= v < 256.

Definition board (b : list Z) : Prop :=
  length b = 8%nat /\ Forall is_byte b.

(** The four arrays have eight byte entries each. *)
Definition wf (s : state) : Prop :=
  board (gameboard s) /\ board (newgameboard s) /\
  board (oldgameboard s) /\ board (ij s).

#[global] Instance is_byte_dec (v : Z) : Decision (is_byte v).
Proof. unfold is_byte. apply _. Defined.

#[global] Instance board_dec (b : list Z) : Decision (board b).
Proof. unfold board. apply _. Defined.

#[global] Instance wf_dec (s : state) : Decision (wf s).
Proof. unfold wf. apply _. Defined.

Definition same_cells (b1 b2 : list Z) : Prop :=
  forall r c, 0 <= r < NUMROWS -> 0 <= c < NUMCOLS -> cell b1 r c = cell b2 r c.

(** The advance-classify-shift part of a pass of [loop()], with the
    classification [(stable, dead, repeat)] of the transition. *)
Definition cycle : M state (bool * bool * bool) :=
  calculateNewGameBoard;; swapGameBoards_loop.

(** The cycle that follows [k] earlier cycles (generation [k + 1]), with
    its classification. *)
Fixpoint nth_cycle (k : nat) : M state (bool * bool * bool) :=
  match k with
  | O => cycle
  | S k' => cycle;; nth_cycle k'
  end.

(** ** Auxiliary views of the state *)

(** Entry [r] of an array of rows. *)
Definition row_at (b : list Z) (r : Z) : Z := default 0 (b !! Z.to_nat r).

(** The locals of [swapGameBoards] after row [r], from the boards [g]
    (current), [n] (successor) and [o] (previous). *)
Definition shift_flags (g n o : list Z) (flags : bool * bool * bool) (r : Z)
  : bool * bool * bool :=
  let '(stable, dead, repeat) := flags in
  (if negb (row_at g r =? row_at n r) then false else stable,
   if negb (row_at g r =? 0) then false else dead,
   if negb (row_at o r =? row_at n r) then false else repeat).

(** What [setSprite] sends to the display for an array of eight rows. *)
Definition sprite_events (l : list Z) : list event :=
  (fun r => SetColumn 0 (7 - r) (row_at l r)) <$> seqZ 0 8.

Definition add_trace (evs : list event) (s : state) : state :=
  State (gameboard s) (newgameboard s) (oldgameboard s) (ij s)
        (rng s) (adc_reads s) (trace s ++ evs).

Definition sized (s : state) : Prop :=
  length (gameboard s) = 8%nat /\ length (ij s) = 8%nat.

(** [runs m]: from a state whose [gameboard] and [ij] have eight rows, [m]
    returns, keeps these lengths and only appends to the trace. *)
Definition runs {A} (m : M state A) : Prop :=
  forall s, sized s ->
    exists a s' evs, m s = Some (a, s') /\ sized s' /\ trace s' = trace s ++ evs.

(** ** Patterns *)

(** Three live cells in a line centred on [(r, c)]: along row [r] when
    [horizontal], along column [c] otherwise. *)
Definition blinker (horizontal : bool) (r c : Z) : list Z :=
  if horizontal
  then <[Z.to_nat r := Z.shiftl 7 (c - 1)]> all_dead
  else <[Z.to_nat (r - 1) := Z.shiftl 1 c]>
         (<[Z.to_nat r := Z.shiftl 1 c]>
            (<[Z.to_nat (r + 1) := Z.shiftl 1 c]> all_dead)).

(** One live cell at [(r, c)]. *)
Definition single_cell (r c : Z) : list Z :=
  <[Z.to_nat r := Z.shiftl 1 c]> all_dead.

(** The globals at power-on, with [b] as the current board. *)
Definition started_with (b : list Z) : state :=
  set_array Gameboard b initial_state.

(** The reading of "repeat fires exactly every other generation, never on
    the first": it fires on generations 2, 4, 6, ... and on no other. *)
Definition repeat_alternates (s : state) : Prop :=
  forall k, exists f s',
    nth_cycle k s = Some (f, s') /\ (repeat_of f = true <-> Nat.odd k = true).

(** ** Reseeding, as a function of the generator *)

(** [bitWrite(v, col, !bitRead(v, col))] (line 193). *)
Definition toggle (v col : Z) : Z :=
  if negb (truthy (bitRead v col)) then bitSet v col else bitClear v col.

(** The board with the cell at [p = (row, col)] toggled. *)
Definition toggle_cell (b : list Z) (p : Z * Z) : list Z :=
  <[Z.to_nat p.1 := toggle (row_at b p.1) p.2]> b.

Section Draws.
Variable libc_random : Z -> Z * Z.

(** The value of [random(howsmall, howbig)] for [howsmall < howbig], and
    the generator after it. *)
Definition random_value (howsmall howbig rg : Z) : Z * Z :=
  let '(r, next) := libc_random rg in
  (Z.rem r (howbig - howsmall) + howsmall, next).

(** The [(row, col)] pairs drawn by [n] rounds of
    [perturbInitialGameBoard], and the generator after them. *)
Fixpoint draws (n : nat) (rg : Z) : list (Z * Z) * Z :=
  match n with
  | O => ([], rg)
  | S n' =>
      let '(row, rg1) := random_value 0 NUMROWS rg in
      let '(col, rg2) := random_value 0 NUMCOLS rg1 in
      let '(ps, rg') := draws n' rg2 in
      ((row, col) :: ps, rg')
  end.

(** The number of rounds [random(20,100)], and the generator after
    drawing it. *)
Definition perturb_count (rg : Z) : Z * Z := random_value 20 100 rg.

End Draws.

(** Number of times the cell [(r, c)] is drawn in [ps]. *)
Definition times_drawn (r c : Z) (ps : list (Z * Z)) : nat :=
  length (filter (fun p => p = (r, c)) ps).

Definition set_rng (rg : Z) (s : state) : state :=
  State (gameboard s) (newgameboard s) (oldgameboard s) (ij s) rg (adc_reads s) (trace s).

(** [same_boards s0 s]: [s] is well formed and has the boards, the sprite
    and the generator of [s0]; only the trace and the conversion count may
    differ. *)
Definition same_boards (s0 s : state) : Prop :=
  wf s /\ gameboard s = gameboard s0 /\ newgameboard s = newgameboard s0 /\
  oldgameboard s = oldgameboard s0 /\ ij s = ij s0 /\ rng s = rng s0.

Section Passes.
Variable analog_sample : nat -> Z -> Z.
Variable libc_random : Z -> Z * Z.

(** [k] passes of [loop()]. *)
Fixpoint loops (k : nat) : M state unit :=
  match k with
  | O => ret tt
  | S k' => loop analog_sample libc_random;; loops k'
  end.

End Passes.

End Packed.

(** * The boolean-grid sketch *)
Module Grid.

Record state : Type := State {
  gameBoard : list (list bool);
  newGameBoard : list (list bool);
  gameboard : list Z;   (* the row bytes handed to the display *)
  rng : Z;
  adc_reads : nat;
  trace : list event
}.

(** Power-on contents of the globals (lines 328-361). *)
Definition initial_state : state :=
  {| gameBoard :=
       [ [false; false; false; false; false; false; false; false];
         [false; false; true;  true;  false; false; false; false];
         [false; true;  true;  false; false; false; false; false];
         [false; false; true;  false; false; false; false; false];
         [false; false; false; false; false; false; false; false];
         [false; false; false; false; false; false; false; false];
         [false; false; false; false; false; false; false; false];
         [false; false; false; false; false; false; false; false] ];
     newGameBoard := replicate 8 (replicate 8 false);
     gameboard := [195; 195; 0; 3; 195; 231; 126; 60];
     rng := 1;
     adc_reads := 0%nat;
     trace := [] |}.

(** [gameBoard[row][col]] *)
Definition load_gameBoard (row col : Z) : M state bool :=
  fun s => match subscript (gameBoard s) row with
           | Some cells =>
               match subscript cells col with
               | Some b => Some (b, s)
               | None => None
               end
           | None => None
           end.

(** [newGameBoard[row][col] = b] *)
Definition store_newGameBoard (row col : Z) (b : bool) : M state unit :=
  fun s => match subscript (newGameBoard s) row with
           | Some cells =>
               if in_bounds cells col
               then Some (tt, State (gameBoard s)
                                    (<[Z.to_nat row := <[Z.to_nat col := b]> cells]>
                                       (newGameBoard s))
                                    (gameboard s) (rng s) (adc_reads s) (trace s))
               else None
           | None => None
           end.

(** [gameboard[i]] and [gameboard[i] = v] on the display bytes. *)
Definition load_gameboard (i : Z) : M state Z :=
  fun s => match subscript (gameboard s) i with
           | Some v => Some (v, s)
           | None => None
           end.

Definition store_gameboard (i v : Z) : M state unit :=
  fun s => if in_bounds (gameboard s) i
           then Some (tt, State (gameBoard s) (newGameBoard s)
                                (<[Z.to_nat i := v]> (gameboard s))
                                (rng s) (adc_reads s) (trace s))
           else None.

Definition emit (e : event) : M state unit :=
  modify (fun s => State (gameBoard s) (newGameBoard s) (gameboard s)
                         (rng s) (adc_reads s) (trace s ++ [e])).

Definition setSprite_gameboard : M state unit :=
  for_each (seqZ 0 8) (fun r =>
    do v <- load_gameboard r;
    emit (SetColumn 0 (7 - r) v)).

(** What a C expression used as a condition evaluates to: an integer, or
    the address of a row of [gameBoard]. *)
Inductive cvalue : Type :=
  | VInt (z : Z)
  | VRow (row : Z).

(** An address of an object is never null. *)
Definition cond (v : cvalue) : bool :=
  match v with
  | VInt z => truthy z
  | VRow _ => true
  end.

(** The comma operator [x, y]: [x] is evaluated and dropped. *)
Definition comma {A B} (x : A) (y : B) : B := y.

(** [gameBoard[i]] with one subscript designates row [i], an array that
    decays to the address of its first cell; no cell is read. *)
Definition gameBoard_row (i : Z) : M state cvalue := ret (VRow i).

(** Lines 486-500; the condition of the inner [if] is [gameBoard[x,y]]. *)
Definition displayGameBoard : M state unit :=
  for_each (seqZ 0 NUMROWS) (fun x =>
    do b <- for_loop (seqZ 0 NUMCOLS) 0 (fun b y =>
              let b := to_byte (Z.shiftl b 1) in
              do v <- gameBoard_row (comma x y);
              if cond v then ret (to_byte (Z.lor b 1)) else ret b);
    store_gameboard x b);;
  setSprite_gameboard.

Definition isCellAlive (row col : Z) : M state bool :=
  if (row <? 0) || (col <? 0) || (row >=? NUMROWS) || (col >=? NUMCOLS)
  then ret false
  else do b <- load_gameBoard row col;
       ret (Z.b2z b =? 1).

Definition countNeighbors (row col : Z) : M state Z :=
  for_loop (seqZ (-1) 3) 0 (fun count rowDelta =>
    for_loop (seqZ (-1) 3) count (fun count colDelta =>
      if negb ((colDelta =? 0) && (rowDelta =? 0))
      then do alive <- isCellAlive (to_char (rowDelta + row))
                                   (to_char (colDelta + col));
           ret (if alive then to_byte (count + 1) else count)
      else ret count)).

(** The body of the inner loop of [calculateNewGameBoard] (lines 550-567). *)
Definition calculateNewGameBoard_cell (row col : Z) : M state unit :=
  do numNeighbors <- countNeighbors row col;
  do b1 <- load_gameBoard row col;
  if b1 && (numNeighbors <? 2) then
    store_newGameBoard row col false
  else
  do b2 <- load_gameBoard row col;
  if b2 && ((numNeighbors =? 2) || (numNeighbors =? 3)) then
    store_newGameBoard row col true
  else
  do b3 <- load_gameBoard row col;
  if b3 && (numNeighbors >? 3) then
    store_newGameBoard row col false
  else
  do b4 <- load_gameBoard row col;
  if negb b4 && (numNeighbors =? 3) then
    store_newGameBoard row col true
  else
    store_newGameBoard row col false.

Definition calculateNewGameBoard : M state unit :=
  for_each (seqZ 0 NUMROWS) (fun row =>
    for_each (seqZ 0 NUMCOLS) (fun col =>
      calculateNewGameBoard_cell row col)).

(** ** The board as a grid of cells *)

Definition cell (b : list (list bool)) (r c : Z) : bool :=
  match subscript b r with
  | Some cells => default false (subscript cells c)
  | None => false
  end.

Definition alive (b : list (list bool)) (r c : Z) : bool :=
  if (r <? 0) || (c <? 0) || (r >=? NUMROWS) || (c >=? NUMCOLS)
  then false else cell b r c.

Definition neighbours (b : list (list bool)) (r c : Z) : Z :=
  Z.b2z (alive b (r - 1) (c - 1)) + Z.b2z (alive b (r - 1) c)
  + Z.b2z (alive b (r - 1) (c + 1))
  + Z.b2z (alive b r (c - 1)) + Z.b2z (alive b r (c + 1))
  + Z.b2z (alive b (r + 1) (c - 1)) + Z.b2z (alive b (r + 1) c)
  + Z.b2z (alive b (r + 1) (c + 1)).

Definition next_cell (b : list (list bool)) (r c : Z) : bool :=
  life (cell b r c) (neighbours b r c).

Definition advance (b : list (list bool)) : list (list bool) :=
  (fun r => next_cell b r <$> seqZ 0 NUMCOLS) <$> seqZ 0 NUMROWS.

Definition board (b : list (list bool)) : Prop :=
  length b = 8%nat /\ Forall (fun cells => length cells = 8%nat) b.

Definition wf (s : state) : Prop :=
  board (gameBoard s) /\ board (newGameBoard s) /\ length (gameboard s) = 8%nat.

#[global] Instance grid_board_dec (b : list (list bool)) : Decision (board b).
Proof. unfold board. apply _. Defined.

#[global] Instance grid_wf_dec (s : state) : Decision (wf s).
Proof. unfold wf. apply _. Defined.

Definition set_newGameBoard (nw : list (list bool)) (s : state) : state :=
  State (gameBoard s) nw (gameboard s) (rng s) (adc_reads s) (trace s).

Definition set_gameboard (l : list Z) (s : state) : state :=
  State (gameBoard s) (newGameBoard s) l (rng s) (adc_reads s) (trace s).

Definition add_trace (evs : list event) (s : state) : state :=
  State (gameBoard s) (newGameBoard s) (gameboard s) (rng s) (adc_reads s)
        (trace s ++ evs).

(** The board with no live cell, and the state showing it. *)
Definition all_dead : list (list bool) := replicate 8 (replicate 8 false).

Definition blank_state : state :=
  State all_dead all_dead (gameboard initial_state) 1 0%nat [].

(** ** The rest of the grid sketch *)

(** [newGameBoard[row][col]] *)
Definition load_newGameBoard (row col : Z) : M state bool :=
  fun s => match subscript (newGameBoard s) row with
           | Some cells =>
               match subscript cells col with
               | Some b => Some (b, s)
               | None => None
               end
           | None => None
           end.

(** [gameBoard[row][col] = b] *)
Definition store_gameBoard (row col : Z) (b : bool) : M state unit :=
  fun s => match subscript (gameBoard s) row with
           | Some cells =>
               if in_bounds cells col
               then Some (tt, State (<[Z.to_nat row := <[Z.to_nat col := b]> cells]>
                                       (gameBoard s))
                                    (newGameBoard s)
                                    (gameboard s) (rng s) (adc_reads s) (trace s))
               else None
           | None => None
           end.

(** Lines 575-581. *)
Definition swapGameBoards : M state unit :=
  for_each (seqZ 0 NUMROWS) (fun row =>
    for_each (seqZ 0 NUMCOLS) (fun col =>
      do b <- load_newGameBoard row col;
      store_gameBoard row col b)).

Definition set_gameBoard (b : list (list bool)) (s : state) : state :=
  State b (newGameBoard s) (gameboard s) (rng s) (adc_reads s) (trace s).

Definition set_rng (rg : Z) (s : state) : state :=
  State (gameBoard s) (newGameBoard s) (gameboard s) rg (adc_reads s) (trace s).

Section Environment.
Variable libc_random : Z -> Z * Z.

(** Arduino core [random(lo, hi)], as in the packed sketch. *)
Definition random (howsmall howbig : Z) : M state Z :=
  if howsmall >=? howbig then ret howsmall
  else fun s =>
    let '(r, next) := libc_random (rng s) in
    Some (Z.rem r (howbig - howsmall) + howsmall,
          State (gameBoard s) (newGameBoard s) (gameboard s) next (adc_reads s) (trace s)).

(** Lines 474-481: [gameBoard[row][col] = !gameBoard[row][col]] in a loop
    of [random(20,100)] rounds. *)
Definition perturbInitialGameBoard : M state unit :=
  do numChanges <- random 20 100;
  for_each (seqZ 0 numChanges) (fun _ =>
    do row <- random 0 NUMROWS;
    do col <- random 0 NUMCOLS;
    do b <- load_gameBoard row col;
    store_gameBoard row col (negb b)).

End Environment.

(** The board with the cell at [p = (row, col)] negated. *)
Definition flip_cell (b : list (list bool)) (p : Z * Z) : list (list bool) :=
  <[Z.to_nat p.1 :=
      <[Z.to_nat p.2 := negb (cell b p.1 p.2)]> (default [] (b !! Z.to_nat p.1))]> b.

(** The byte of the packed sketch for a row of cells: column [c] in bit
    [c], as [isCellAlive] of the packed sketch reads it. *)
Definition pack_row (cells : list bool) : Z :=
  fold_right (fun b acc => 2 * acc + Z.b2z b) 0 cells.

Definition pack (b : list (list bool)) : list Z := pack_row <$> b.

End Grid.

(** * Properties of the embedding *)

(** Closed decidable side conditions, such as the well-formedness of a
    concrete state, are settled by evaluation. *)
Ltac decide_it :=
  match goal with
  | |- ?P => apply (bool_decide_eq_true_1 P); vm_compute; reflexivity
  end.

(** ** Running computations; bits and bytes *)

Lemma bind_run {St A B} (m : M St A) (k : A -> M St B) s a s' :
  m s = Some (a, s') -> bind m k s = k a s'.
Proof. intros H. unfold bind. now rewrite H. Qed.

Lemma for_loop_pure {St A B} (f : B -> A -> B) (body : B -> A -> M St B) xs s :
  (forall acc x, x ∈ xs -> body acc x s = Some (f acc x, s)) ->
  forall acc, for_loop xs acc body s = Some (fold_left f xs acc, s).
Proof.
  induction xs as [|x xs IH]; intros Hbody acc; [reflexivity|].
  cbn [for_loop fold_left].
  rewrite (bind_run _ _ _ _ _ (Hbody acc x (list_elem_of_here _ _))).
  apply IH. intros acc' y Hy. apply Hbody. now apply list_elem_of_further.
Qed.

Lemma bitRead_testbit v c : 0 <= c -> bitRead v c = Z.b2z (Z.testbit v c).
Proof.
  intros Hc. unfold bitRead.
  apply Z.bits_inj'. intros n Hn.
  rewrite Z.land_spec, Z.shiftr_spec by lia.
  destruct (Z.eq_dec n 0) as [->|Hne].
  - rewrite Z.add_0_l. cbn. rewrite andb_true_r. now destruct (Z.testbit v c).
  - rewrite (Z.bits_above_log2 1 n) by (cbn; lia). 
    rewrite andb_false_r. destruct (Z.testbit v c); cbn; [|now rewrite Z.bits_0].
    symmetry. apply (Z.bits_above_log2 1 n); cbn; lia.
Qed.

Lemma testbit_to_byte v i : 0 <= i -> Z.testbit (to_byte v) i = (i <? 8) && Z.testbit v i.
Proof.
  intros Hi. unfold to_byte. change 256 with (2 ^ 8).
  destruct (Z.ltb_spec i 8).
  - now rewrite Z.mod_pow2_bits_low by lia.
  - now rewrite Z.mod_pow2_bits_high by lia.
Qed.

Lemma testbit_to_ulong v i : 0 <= i -> Z.testbit (to_ulong v) i = (i <? 32) && Z.testbit v i.
Proof.
  intros Hi. unfold to_ulong.
  destruct (Z.ltb_spec i 32).
  - now rewrite Z.mod_pow2_bits_low by lia.
  - now rewrite Z.mod_pow2_bits_high by lia.
Qed.

Lemma testbit_one_shl c i : 0 <= c -> 0 <= i -> Z.testbit (Z.shiftl 1 c) i = (i =? c).
Proof.
  intros Hc Hi. rewrite Z.shiftl_1_l, Z.pow2_bits_eqb by lia. apply Z.eqb_sym.
Qed.

Lemma testbit_bitSet v c i :
  0 <= c < 8 -> 0 <= i ->
  Z.testbit (bitSet v c) i = (i <? 8) && (Z.testbit v i || (i =? c)).
Proof.
  intros Hc Hi. unfold bitSet.
  rewrite testbit_to_byte, Z.lor_spec, testbit_to_ulong, testbit_one_shl by lia.
  destruct (Z.ltb_spec i 8); [|reflexivity]. cbn.
  destruct (Z.ltb_spec i 32); [reflexivity | lia].
Qed.

Lemma testbit_bitClear v c i :
  0 <= c < 8 -> 0 <= i ->
  Z.testbit (bitClear v c) i = (i <? 8) && (Z.testbit v i && negb (i =? c)).
Proof.
  intros Hc Hi. unfold bitClear.
  rewrite testbit_to_byte, Z.land_spec, testbit_to_ulong, Z.lnot_spec,
    testbit_to_ulong, testbit_one_shl by lia.
  destruct (Z.ltb_spec i 8); [|reflexivity]. cbn.
  destruct (Z.ltb_spec i 32); [reflexivity | lia].
Qed.

Lemma to_byte_range v : 0 <= to_byte v < 256.
Proof. unfold to_byte. apply Z.mod_pos_bound. lia. Qed.

Lemma to_char_small z : -128 <= z < 128 -> to_char z = z.
Proof. intros H. unfold to_char. rewrite Z.mod_small; lia. Qed.

Lemma index_fold_fmap {A} (w : Z -> A) (l : list A) :
  length l = 8%nat ->
  fold_left (fun l i => <[Z.to_nat i := w i]> l) (seqZ 0 8) l = w <$> seqZ 0 8.
Proof.
  intros Hlen.
  do 8 (destruct l as [|? l]; [discriminate|]).
  destruct l; [reflexivity | discriminate].
Qed.

Lemma subscript_in_range {A} (l : list A) i :
  0 <= i < Z.of_nat (length l) -> exists v, subscript l i = Some v.
Proof.
  intros Hi. unfold subscript.
  destruct (Z.ltb_spec i 0); [lia|].
  apply lookup_lt_is_Some. lia.
Qed.

Lemma subscript_lookup {A} (l : list A) i v :
  subscript l i = Some v -> 0 <= i /\ l !! Z.to_nat i = Some v.
Proof.
  unfold subscript. destruct (Z.ltb_spec i 0); [discriminate|]. auto.
Qed.

Lemma lookup_subscript {A} (l : list A) i v :
  0 <= i -> l !! Z.to_nat i = Some v -> subscript l i = Some v.
Proof.
  intros Hi H. unfold subscript. destruct (Z.ltb_spec i 0); [lia | exact H].
Qed.

Lemma for_each_cons {St A} (x : A) xs (body : A -> M St unit) s :
  for_each (x :: xs) body s = bind (body x) (fun _ => for_each xs body) s.
Proof.
  unfold for_each. cbn [for_loop]. unfold bind.
  now destruct (body x s) as [[[] s']|].
Qed.

Lemma truthy_b2z b : truthy (Z.b2z b) = b.
Proof. now destruct b. Qed.

Lemma fold_left_ext_in {A B} (f g : A -> B -> A) (l : list B) :
  (forall a x, x ∈ l -> f a x = g a x) ->
  forall a, fold_left f l a = fold_left g l a.
Proof.
  induction l as [|x l IH]; intros H a; [reflexivity|].
  cbn. rewrite (H a x) by apply list_elem_of_here.
  apply IH. intros a' y Hy. apply H. now apply list_elem_of_further.
Qed.

Lemma bool_decide_of_iff (b : bool) (P : Prop) `{Decision P} :
  (b = true <-> P) -> b = bool_decide P.
Proof.
  intros Hiff. destruct b.
  - symmetry. apply bool_decide_eq_true. now apply Hiff.
  - symmetry. apply bool_decide_eq_false. intros HP. apply Hiff in HP. discriminate.
Qed.

(** ** The byte-packed sketch *)

Section PackedFacts.
Import Packed.

Lemma load_run a i s v :
  subscript (get_array a s) i = Some v -> load a i s = Some (v, s).
Proof. intros H. unfold load. now rewrite H. Qed.

Lemma isCellAlive_run s r c :
  length (gameboard s) = 8%nat ->
  isCellAlive r c s = Some (alive (gameboard s) r c, s).
Proof.
  intros Hlen. unfold isCellAlive, alive.
  destruct ((r <? 0) || (c <? 0) || (r >=? NUMROWS) || (c >=? NUMCOLS)) eqn:E;
    [reflexivity|].
  unfold NUMROWS, NUMCOLS in E.
  destruct (subscript_in_range (gameboard s) r) as [v Hv]; [lia|].
  rewrite (bind_run _ _ _ _ _ (load_run Gameboard r s v Hv)).
  unfold ret, cell. rewrite Hv, bitRead_testbit by lia.
  now destruct (Z.testbit v c).
Qed.

Lemma countNeighbors_run s r c :
  length (gameboard s) = 8%nat -> 0 <= r < 8 -> 0 <= c < 8 ->
  countNeighbors r c s = Some (neighbours (gameboard s) r c, s).
Proof.
  intros Hlen Hr Hc. unfold countNeighbors.
  rewrite (for_loop_pure
    (fun count rowDelta =>
       fold_left (fun count colDelta =>
         if negb ((colDelta =? 0) && (rowDelta =? 0))
         then if alive (gameboard s) (to_char (rowDelta + r)) (to_char (colDelta + c))
              then to_byte (count + 1) else count
         else count) (seqZ (-1) 3) count)).
  2:{ intros acc rd _. apply for_loop_pure. intros count cd _.
      destruct (negb ((cd =? 0) && (rd =? 0))); [|reflexivity].
      now rewrite (bind_run _ _ _ _ _ (isCellAlive_run s _ _ Hlen)). }
  f_equal. f_equal.
  change (seqZ (-1) 3) with [-1; 0; 1]. cbn [fold_left Z.eqb andb negb].
  rewrite !to_char_small by lia. unfold neighbours.
  replace (-1 + r) with (r - 1) by lia. replace (-1 + c) with (c - 1) by lia.
  replace (1 + r) with (r + 1) by lia. replace (1 + c) with (c + 1) by lia.
  rewrite !Z.add_0_l.
  destruct (alive _ (r - 1) (c - 1)), (alive _ (r - 1) c), (alive _ (r - 1) (c + 1)),
    (alive _ r (c - 1)), (alive _ r (c + 1)), (alive _ (r + 1) (c - 1)),
    (alive _ (r + 1) c), (alive _ (r + 1) (c + 1)); reflexivity.
Qed.

Lemma gameboard_bit_run s r c :
  length (gameboard s) = 8%nat -> 0 <= r < 8 -> 0 <= c ->
  gameboard_bit r c s = Some (Z.b2z (cell (gameboard s) r c), s).
Proof.
  intros Hlen Hr Hc. unfold gameboard_bit.
  destruct (subscript_in_range (gameboard s) r) as [v Hv]; [lia|].
  rewrite (bind_run _ _ _ _ _ (load_run Gameboard r s v Hv)).
  unfold ret, cell. now rewrite Hv, bitRead_testbit.
Qed.

Lemma store_run a i v s :
  0 <= i < Z.of_nat (length (get_array a s)) ->
  store a i v s = Some (tt, set_array a (<[Z.to_nat i := v]> (get_array a s)) s).
Proof.
  intros Hi. unfold store, in_bounds.
  destruct (Z.leb_spec 0 i); [|lia].
  destruct (Z.ltb_spec i (Z.of_nat (length (get_array a s)))); [reflexivity | lia].
Qed.

Lemma newgameboard_write_run s (r c v : Z) :
  0 <= r -> newgameboard s !! Z.to_nat r = Some v ->
  forall a : bool,
    (if a then newgameboard_bitSet r c else newgameboard_bitClear r c) s =
    Some (tt, set_array Newgameboard
                (<[Z.to_nat r := write_cell v c a]> (newgameboard s)) s).
Proof.
  intros Hr Hv a.
  assert (Hlt : 0 <= r < Z.of_nat (length (newgameboard s))).
  { apply lookup_lt_Some in Hv. lia. }
  destruct a; unfold newgameboard_bitSet, newgameboard_bitClear, write_cell;
    rewrite (bind_run _ _ _ _ _
               (load_run Newgameboard r s v (lookup_subscript _ _ _ Hr Hv)));
    now apply store_run.
Qed.

Lemma calculateNewGameBoard_cell_run s (r c v : Z) :
  length (gameboard s) = 8%nat -> 0 <= r < 8 -> 0 <= c < 8 ->
  newgameboard s !! Z.to_nat r = Some v ->
  calculateNewGameBoard_cell r c s =
  Some (tt, set_array Newgameboard
              (<[Z.to_nat r := write_cell v c (next_cell (gameboard s) r c)]>
                 (newgameboard s)) s).
Proof.
  intros Hlen Hr Hc Hv.
  pose proof (gameboard_bit_run s r c Hlen Hr (proj1 Hc)) as Hbit.
  pose proof (newgameboard_write_run s r c v (proj1 Hr) Hv) as Hw.
  unfold calculateNewGameBoard_cell, next_cell, life.
  rewrite (bind_run _ _ _ _ _ (countNeighbors_run s r c Hlen Hr Hc)).
  rewrite (bind_run _ _ _ _ _ Hbit), truthy_b2z.
  destruct (cell (gameboard s) r c && (neighbours (gameboard s) r c <? 2));
    [exact (Hw false)|].
  rewrite (bind_run _ _ _ _ _ Hbit), truthy_b2z.
  destruct (cell (gameboard s) r c &&
            ((neighbours (gameboard s) r c =? 2) || (neighbours (gameboard s) r c =? 3)));
    [exact (Hw true)|].
  rewrite (bind_run _ _ _ _ _ Hbit), truthy_b2z.
  destruct (cell (gameboard s) r c && (neighbours (gameboard s) r c >? 3));
    [exact (Hw false)|].
  rewrite (bind_run _ _ _ _ _ Hbit), truthy_b2z.
  destruct (negb (cell (gameboard s) r c) && (neighbours (gameboard s) r c =? 3));
    [exact (Hw true) | exact (Hw false)].
Qed.

(** The inner loop writes the columns it visits into row [r] of the
    scratch board and nothing else. *)
Lemma columns_run (r : Z) cs : forall s (v : Z),
  length (gameboard s) = 8%nat -> 0 <= r < 8 ->
  Forall (fun c => 0 <= c < 8) cs ->
  newgameboard s !! Z.to_nat r = Some v ->
  for_each cs (fun col => calculateNewGameBoard_cell r col) s =
  Some (tt, set_array Newgameboard
              (<[Z.to_nat r :=
                   fold_left (fun v c => write_cell v c (next_cell (gameboard s) r c)) cs v]>
                 (newgameboard s)) s).
Proof.
  induction cs as [|c cs IH]; intros s v Hlen Hr Hcs Hv.
  - cbn. rewrite (list_insert_id _ _ _ Hv). now destruct s.
  - inversion Hcs as [|? ? Hc Hcs']; subst.
    rewrite for_each_cons.
    rewrite (bind_run _ _ _ _ _ (calculateNewGameBoard_cell_run s r c v Hlen Hr Hc Hv)).
    erewrite IH; [| exact Hlen | exact Hr | exact Hcs' | ].
    2:{ cbn. apply list_lookup_insert_eq. now apply lookup_lt_Some in Hv. }
    cbn. now rewrite list_insert_insert_eq.
Qed.

Lemma testbit_write_cell (v c : Z) (a : bool) (i : Z) :
  0 <= c < 8 -> 0 <= i ->
  Z.testbit (write_cell v c a) i =
  (i <? 8) && (if i =? c then a else Z.testbit v i).
Proof.
  intros Hc Hi. unfold write_cell.
  destruct a; [rewrite testbit_bitSet by lia | rewrite testbit_bitClear by lia];
    destruct (i <? 8), (i =? c), (Z.testbit v i); reflexivity.
Qed.

Lemma write_cell_byte (v c : Z) (a : bool) : is_byte (write_cell v c a).
Proof. destruct a; apply to_byte_range. Qed.

Lemma write_row_unfold (b : list Z) (r v : Z) :
  write_row b r v =
  write_cell (write_cell (write_cell (write_cell (write_cell (write_cell
    (write_cell (write_cell v 0 (next_cell b r 0)) 1 (next_cell b r 1))
      2 (next_cell b r 2)) 3 (next_cell b r 3)) 4 (next_cell b r 4))
      5 (next_cell b r 5)) 6 (next_cell b r 6)) 7 (next_cell b r 7).
Proof. reflexivity. Qed.

Lemma write_row_byte (b : list Z) (r v : Z) : is_byte (write_row b r v).
Proof. rewrite write_row_unfold. apply write_cell_byte. Qed.

Lemma testbit_write_row (b : list Z) (r v i : Z) :
  0 <= i ->
  Z.testbit (write_row b r v) i = (i <? 8) && next_cell b r i.
Proof.
  intros Hi. rewrite write_row_unfold.
  rewrite !testbit_write_cell by lia.
  destruct (Z.ltb_spec i 8); [|reflexivity].
  assert (i = 0 \/ i = 1 \/ i = 2 \/ i = 3 \/ i = 4 \/ i = 5 \/ i = 6 \/ i = 7)
    as Hcases by lia.
  repeat (destruct Hcases as [->|Hcases]); try subst i; reflexivity.
Qed.

Lemma write_row_scratch (b : list Z) (r v : Z) : write_row b r v = write_row b r 0.
Proof.
  apply Z.bits_inj'. intros i Hi. now rewrite !testbit_write_row.
Qed.

Lemma rows_run rs : forall s,
  length (gameboard s) = 8%nat -> length (newgameboard s) = 8%nat ->
  Forall (fun r => 0 <= r < 8) rs ->
  for_each rs (fun row => for_each (seqZ 0 NUMCOLS)
                            (fun col => calculateNewGameBoard_cell row col)) s =
  Some (tt, set_array Newgameboard
              (fold_left (fun nw r => <[Z.to_nat r := write_row (gameboard s) r 0]> nw)
                         rs (newgameboard s)) s).
Proof.
  induction rs as [|r rs IH]; intros s Hlen Hnew Hrs.
  - cbn. now destruct s.
  - inversion Hrs as [|? ? Hr Hrs']; subst.
    rewrite for_each_cons.
    destruct (lookup_lt_is_Some_2 (newgameboard s) (Z.to_nat r)) as [v Hv]; [lia|].
    rewrite (bind_run _ _ _ _ _
               (columns_run r (seqZ 0 NUMCOLS) s v Hlen Hr ltac:(now repeat constructor) Hv)).
    fold (write_row (gameboard s) r v). rewrite write_row_scratch.
    rewrite IH; [| exact Hlen | cbn; now rewrite length_insert | exact Hrs'].
    reflexivity.
Qed.

Theorem calculateNewGameBoard_run s :
  length (gameboard s) = 8%nat -> length (newgameboard s) = 8%nat ->
  calculateNewGameBoard s =
  Some (tt, set_array Newgameboard (advance (gameboard s)) s).
Proof.
  intros Hg Hn. unfold calculateNewGameBoard.
  rewrite rows_run; [| exact Hg | exact Hn | now repeat constructor].
  unfold NUMROWS at 1.
  now rewrite (index_fold_fmap (fun r => write_row (gameboard s) r 0)).
Qed.

Lemma advance_board b : board (advance b).
Proof.
  split; [reflexivity|]. unfold advance.
  apply Forall_fmap, Forall_forall. intros r _. apply write_row_byte.
Qed.

Lemma cell_advance b r c :
  0 <= r < 8 -> 0 <= c < 8 -> cell (advance b) r c = next_cell b r c.
Proof.
  intros Hr Hc. unfold cell, advance, subscript.
  destruct (Z.ltb_spec r 0); [lia|].
  rewrite list_lookup_fmap.
  assert (seqZ 0 NUMROWS !! Z.to_nat r = Some r) as ->.
  { rewrite lookup_seqZ. unfold NUMROWS. split; lia. }
  cbn [fmap option_fmap option_map]. rewrite testbit_write_row by lia.
  destruct (Z.ltb_spec c 8); [reflexivity | lia].
Qed.

Lemma subscript_row_at (b : list Z) (r : Z) :
  0 <= r < Z.of_nat (length b) -> subscript b r = Some (row_at b r).
Proof.
  intros Hr. destruct (subscript_in_range b r Hr) as [v Hv].
  rewrite Hv. apply subscript_lookup in Hv as [_ Hv].
  unfold row_at. now rewrite Hv.
Qed.

Lemma swapGameBoards_row_run s flags (r : Z) :
  length (gameboard s) = 8%nat -> length (newgameboard s) = 8%nat ->
  length (oldgameboard s) = 8%nat -> 0 <= r < 8 ->
  swapGameBoards_row flags r s =
  Some (shift_flags (gameboard s) (newgameboard s) (oldgameboard s) flags r,
        State (<[Z.to_nat r := row_at (newgameboard s) r]> (gameboard s))
              (newgameboard s)
              (<[Z.to_nat r := row_at (gameboard s) r]> (oldgameboard s))
              (ij s) (rng s) (adc_reads s) (trace s)).
Proof.
  intros Hg Hn Ho Hr. destruct flags as [[st de] re].
  assert (Lg : load Gameboard r s = Some (row_at (gameboard s) r, s)).
  { apply load_run, subscript_row_at. cbn. lia. }
  assert (Ln : load Newgameboard r s = Some (row_at (newgameboard s) r, s)).
  { apply load_run, subscript_row_at. cbn. lia. }
  assert (Lo : load Oldgameboard r s = Some (row_at (oldgameboard s) r, s)).
  { apply load_run, subscript_row_at. cbn. lia. }
  unfold swapGameBoards_row.
  rewrite (bind_run _ _ _ _ _ Lg), (bind_run _ _ _ _ _ Ln), (bind_run _ _ _ _ _ Lg),
    (bind_run _ _ _ _ _ Lo), (bind_run _ _ _ _ _ Ln), (bind_run _ _ _ _ _ Lg).
  rewrite (bind_run _ _ _ _ _ (store_run Oldgameboard r _ s ltac:(cbn; lia))).
  erewrite bind_run.
  2:{ apply load_run, subscript_row_at. cbn. lia. }
  erewrite bind_run.
  2:{ apply store_run. cbn. lia. }
  reflexivity.
Qed.

Lemma row_at_insert_ne (b : list Z) (r r' v : Z) :
  0 <= r -> 0 <= r' -> r <> r' ->
  row_at (<[Z.to_nat r := v]> b) r' = row_at b r'.
Proof.
  intros Hr Hr' Hne. unfold row_at. rewrite list_lookup_insert_ne by lia. reflexivity.
Qed.

(** The loop over rows visited once each. *)
Lemma swapGameBoards_rows_run rs : forall s flags,
  length (gameboard s) = 8%nat -> length (newgameboard s) = 8%nat ->
  length (oldgameboard s) = 8%nat ->
  Forall (fun r => 0 <= r < 8) rs -> NoDup rs ->
  for_loop rs flags swapGameBoards_row s =
  Some (fold_left (shift_flags (gameboard s) (newgameboard s) (oldgameboard s)) rs flags,
        State (fold_left (fun b r => <[Z.to_nat r := row_at (newgameboard s) r]> b)
                         rs (gameboard s))
              (newgameboard s)
              (fold_left (fun b r => <[Z.to_nat r := row_at (gameboard s) r]> b)
                         rs (oldgameboard s))
              (ij s) (rng s) (adc_reads s) (trace s)).
Proof.
  induction rs as [|r rs IH]; intros s flags Hg Hn Ho Hrs Hnd.
  - cbn. now destruct s.
  - inversion Hrs as [|? ? Hr Hrs']; subst.
    apply NoDup_cons in Hnd as [Hnotin Hnd].
    cbn [for_loop fold_left].
    rewrite (bind_run _ _ _ _ _ (swapGameBoards_row_run s flags r Hg Hn Ho Hr)).
    rewrite IH; cbn [gameboard newgameboard oldgameboard ij rng adc_reads trace];
      [| now rewrite length_insert | exact Hn | now rewrite length_insert
       | exact Hrs' | exact Hnd].
    assert (Hother : forall r', r' ∈ rs -> 0 <= r' /\ r <> r').
    { intros r' Hin. split.
      - rewrite Forall_forall in Hrs'. apply Hrs' in Hin. lia.
      - intros ->. contradiction. }
    f_equal. f_equal.
    + apply fold_left_ext_in. intros [[st de] re] r' Hin.
      destruct (Hother r' Hin). unfold shift_flags.
      now rewrite !row_at_insert_ne by lia.
    + f_equal. apply fold_left_ext_in. intros b r' Hin.
      destruct (Hother r' Hin). now rewrite row_at_insert_ne by lia.
Qed.

Lemma shift_flags_fold g n o rs : forall st de re,
  fold_left (shift_flags g n o) rs (st, de, re) =
  (st && forallb (fun r => row_at g r =? row_at n r) rs,
   de && forallb (fun r => row_at g r =? 0) rs,
   re && forallb (fun r => row_at o r =? row_at n r) rs).
Proof.
  induction rs as [|r rs IH]; intros st de re.
  - cbn. now rewrite !andb_true_r.
  - cbn [fold_left forallb shift_flags]. rewrite IH.
    destruct (row_at g r =? row_at n r), (row_at g r =? 0),
      (row_at o r =? row_at n r); cbn [negb andb];
      now rewrite ?andb_false_l, ?andb_false_r.
Qed.

Lemma rows_equal (l1 l2 : list Z) :
  length l1 = 8%nat -> length l2 = 8%nat ->
  forallb (fun r => row_at l1 r =? row_at l2 r) (seqZ 0 NUMROWS) = true <-> l1 = l2.
Proof.
  intros H1 H2. split.
  - intros H.
    do 8 (destruct l1 as [|? l1]; [discriminate|]). destruct l1; [|discriminate].
    do 8 (destruct l2 as [|? l2]; [discriminate|]). destruct l2; [|discriminate].
    change (seqZ 0 NUMROWS) with [0; 1; 2; 3; 4; 5; 6; 7] in H.
    cbn [forallb] in H. rewrite !andb_true_iff in H.
    change (row_at ?l ?i) with (default 0 (l !! Z.to_nat i)) in H.
    repeat match type of H with
           | _ /\ _ => let E := fresh "E" in
                       destruct H as [E%Z.eqb_eq H]; vm_compute in E
           end.
    congruence.
  - intros ->. apply forallb_forall. intros r _. apply Z.eqb_refl.
Qed.

Lemma rows_zero (l : list Z) :
  length l = 8%nat ->
  forallb (fun r => row_at l r =? 0) (seqZ 0 NUMROWS) = true <-> l = all_dead.
Proof.
  intros H. rewrite <- (rows_equal l all_dead H eq_refl).
  do 8 (destruct l as [|? l]; [discriminate|]). destruct l; [|discriminate].
  reflexivity.
Qed.

Lemma rows_shifted (l1 l2 : list Z) :
  length l1 = 8%nat -> length l2 = 8%nat ->
  fold_left (fun b r => <[Z.to_nat r := row_at l2 r]> b) (seqZ 0 NUMROWS) l1 = l2.
Proof.
  intros H1 H2.
  do 8 (destruct l1 as [|? l1]; [discriminate|]). destruct l1; [|discriminate].
  do 8 (destruct l2 as [|? l2]; [discriminate|]). destruct l2; [|discriminate].
  reflexivity.
Qed.

(** The classification loop compares the boards row by row and leaves
    [newgameboard] in [gameboard] and the old [gameboard] in
    [oldgameboard]. *)
Theorem swapGameBoards_loop_run s :
  length (gameboard s) = 8%nat -> length (newgameboard s) = 8%nat ->
  length (oldgameboard s) = 8%nat ->
  swapGameBoards_loop s =
  Some ((bool_decide (gameboard s = newgameboard s),
         bool_decide (gameboard s = all_dead),
         bool_decide (oldgameboard s = newgameboard s)),
        State (newgameboard s) (newgameboard s) (gameboard s)
              (ij s) (rng s) (adc_reads s) (trace s)).
Proof.
  intros Hg Hn Ho. unfold swapGameBoards_loop.
  rewrite swapGameBoards_rows_run;
    [| exact Hg | exact Hn | exact Ho | now repeat constructor | apply NoDup_seqZ].
  rewrite shift_flags_fold, !andb_true_l, !rows_shifted by assumption.
  repeat f_equal; apply bool_decide_of_iff.
  - now apply rows_equal.
  - now apply rows_zero.
  - now apply rows_equal.
Qed.

Theorem cycle_run s :
  length (gameboard s) = 8%nat -> length (newgameboard s) = 8%nat ->
  length (oldgameboard s) = 8%nat ->
  cycle s =
  Some ((bool_decide (gameboard s = advance (gameboard s)),
         bool_decide (gameboard s = all_dead),
         bool_decide (oldgameboard s = advance (gameboard s))),
        State (advance (gameboard s)) (advance (gameboard s)) (gameboard s)
              (ij s) (rng s) (adc_reads s) (trace s)).
Proof.
  intros Hg Hn Ho. unfold cycle.
  rewrite (bind_run _ _ _ _ _ (calculateNewGameBoard_run s Hg Hn)).
  now rewrite swapGameBoards_loop_run.
Qed.

(** A cycle keeps the state well formed, so cycles can be iterated. *)
Lemma cycle_preserves_wf s f s' :
  wf s -> cycle s = Some (f, s') -> wf s'.
Proof.
  intros (Hg & Hn & Ho & Hi) Hrun.
  rewrite cycle_run in Hrun by (apply Hg || apply Hn || apply Ho).
  injection Hrun as _ <-.
  repeat split; cbn [gameboard newgameboard oldgameboard ij];
    first [apply advance_board | apply Hg | apply Hi].
Qed.

Lemma get_array_add_trace a evs s : get_array a (add_trace evs s) = get_array a s.
Proof. now destruct a. Qed.

Lemma setSprite_rows a rs : forall s,
  length (get_array a s) = 8%nat -> Forall (fun r => 0 <= r < 8) rs ->
  for_each rs (fun r => do v <- load a r; emit (SetColumn 0 (7 - r) v)) s =
  Some (tt, add_trace ((fun r => SetColumn 0 (7 - r) (row_at (get_array a s) r)) <$> rs) s).
Proof.
  induction rs as [|r rs IH]; intros s Hlen Hrs.
  - cbn. unfold add_trace. rewrite app_nil_r. now destruct s.
  - inversion Hrs as [|? ? Hr Hrs']; subst.
    rewrite for_each_cons.
    assert (Hload : load a r s = Some (row_at (get_array a s) r, s)).
    { apply load_run, subscript_row_at. lia. }
    assert (Hbody : (do v <- load a r; emit (SetColumn 0 (7 - r) v)) s =
                    Some (tt, add_trace [SetColumn 0 (7 - r) (row_at (get_array a s) r)] s)).
    { now rewrite (bind_run _ _ _ _ _ Hload). }
    rewrite (bind_run _ _ _ _ _ Hbody).
    rewrite IH by (rewrite ?get_array_add_trace; assumption).
    rewrite get_array_add_trace. unfold add_trace. cbn.
    now rewrite <- app_assoc.
Qed.

Lemma setSprite_run a s :
  length (get_array a s) = 8%nat ->
  setSprite a s = Some (tt, add_trace (sprite_events (get_array a s)) s).
Proof.
  intros Hlen. unfold setSprite.
  rewrite setSprite_rows; [reflexivity | exact Hlen | now repeat constructor].
Qed.

Lemma runs_ret {A} (a : A) : runs (ret a).
Proof. intros s Hs. exists a, s, []. now rewrite app_nil_r. Qed.

Lemma runs_bind {A B} (m : M state A) (k : A -> M state B) :
  runs m -> (forall a, runs (k a)) -> runs (bind m k).
Proof.
  intros Hm Hk s Hs.
  destruct (Hm s Hs) as (a & s1 & evs1 & Hrun1 & Hs1 & Ht1).
  destruct (Hk a s1 Hs1) as (b & s2 & evs2 & Hrun2 & Hs2 & Ht2).
  exists b, s2, (evs1 ++ evs2). rewrite (bind_run _ _ _ _ _ Hrun1).
  split; [exact Hrun2|]. split; [exact Hs2|].
  now rewrite Ht2, Ht1, app_assoc.
Qed.

Lemma runs_emit e : runs (emit e).
Proof. intros s Hs. exists tt, (add_trace [e] s), [e]. now split. Qed.

Lemma runs_if {A} (c : bool) (m1 m2 : M state A) :
  runs m1 -> runs m2 -> runs (if c then m1 else m2).
Proof. now destruct c. Qed.

Lemma runs_for_each {A} (xs : list A) (body : A -> M state unit) :
  (forall x, runs (body x)) -> runs (for_each xs body).
Proof.
  intros Hbody. induction xs as [|x xs IH].
  - apply runs_ret.
  - intros s Hs. rewrite for_each_cons. revert s Hs.
    apply runs_bind; [apply Hbody | intros _; exact IH].
Qed.

Lemma runs_setSprite_Gameboard : runs (setSprite Gameboard).
Proof.
  intros s Hs. rewrite setSprite_run by apply Hs.
  eexists _, _, _. split; [reflexivity|]. now split.
Qed.

Section EnvironmentFacts.

Variable analog_sample : nat -> Z -> Z.
Variable libc_random : Z -> Z * Z.
Hypothesis libc_random_range : forall st, 0 <= (libc_random st).1 <= RANDOM_MAX.

Lemma runs_analogRead pin : runs (analogRead analog_sample pin).
Proof.
  intros s Hs. eexists _, _, []. split; [reflexivity|].
  split; [exact Hs | cbn; now rewrite app_nil_r].
Qed.

Lemma runs_randomSeed seed : runs (randomSeed seed).
Proof.
  unfold randomSeed, when. apply runs_if; [|apply runs_ret].
  intros s Hs. eexists _, _, []. split; [reflexivity|].
  split; [exact Hs | cbn; now rewrite app_nil_r].
Qed.

(** [random(lo, hi)] with [lo < hi] returns a value of [lo, hi). *)
Lemma random_run (lo hi : Z) s :
  lo < hi ->
  exists v rg,
    random libc_random lo hi s =
      Some (v, State (gameboard s) (newgameboard s) (oldgameboard s) (ij s)
                     rg (adc_reads s) (trace s)) /\
    lo <= v < hi.
Proof.
  intros Hlt. unfold random.
  destruct (Z.geb_spec lo hi); [lia|].
  pose proof (libc_random_range (rng s)) as Hr.
  destruct (libc_random (rng s)) as [r next]. cbn in Hr.
  eexists _, _. split; [reflexivity|].
  pose proof (Z.rem_bound_pos r (hi - lo)). lia.
Qed.

Lemma runs_perturb_step :
  runs (do row <- random libc_random 0 NUMROWS;
        do col <- random libc_random 0 NUMCOLS;
        do g <- load Gameboard row;
        if negb (truthy (bitRead g col))
        then do v <- load Gameboard row; store Gameboard row (bitSet v col)
        else do v <- load Gameboard row; store Gameboard row (bitClear v col)).
Proof.
  intros s [Hg Hi].
  destruct (random_run 0 NUMROWS s) as (row & rg1 & Hrow & Hrow_range);
    [unfold NUMROWS; lia|].
  rewrite (bind_run _ _ _ _ _ Hrow).
  match type of Hrow with _ = Some (_, ?t) => set (s1 := t) end.
  destruct (random_run 0 NUMCOLS s1) as (col & rg2 & Hcol & Hcol_range);
    [unfold NUMCOLS; lia|].
  rewrite (bind_run _ _ _ _ _ Hcol).
  match type of Hcol with _ = Some (_, ?t) => set (s2 := t) end.
  unfold NUMROWS in Hrow_range.
  assert (Hload : load Gameboard row s2 = Some (row_at (gameboard s) row, s2)).
  { apply load_run, subscript_row_at. cbn. lia. }
  rewrite (bind_run _ _ _ _ _ Hload).
  destruct (negb (truthy (bitRead (row_at (gameboard s) row) col)));
    rewrite (bind_run _ _ _ _ _ Hload), store_run by (cbn; lia);
    eexists _, _, []; (split; [reflexivity|]);
    unfold sized; cbn; rewrite length_insert, app_nil_r; auto.
Qed.

Lemma runs_perturbInitialGameBoard : runs (perturbInitialGameBoard libc_random).
Proof.
  unfold perturbInitialGameBoard. apply runs_bind.
  - intros s Hs. destruct (random_run 20 100 s) as (k & rg & Hk & _); [lia|].
    eexists _, _, []. split; [exact Hk|].
    split; [exact Hs | cbn; now rewrite app_nil_r].
  - intros k. apply runs_for_each. intros _. apply runs_perturb_step.
Qed.

Lemma runs_setUpInitialBoard : runs (setUpInitialBoard analog_sample libc_random).
Proof.
  unfold setUpInitialBoard.
  apply runs_bind; [apply runs_analogRead | intros seed].
  apply runs_bind; [apply runs_emit | intros _].
  apply runs_bind; [apply runs_analogRead | intros pin].
  repeat apply runs_if;
    repeat (apply runs_bind; [apply runs_emit || apply runs_randomSeed | intros _]);
    first [apply runs_perturbInitialGameBoard | apply runs_emit].
Qed.

End EnvironmentFacts.

Lemma byte_high_bits (v i : Z) : is_byte v -> 8 <= i -> Z.testbit v i = false.
Proof.
  intros [Hlo Hhi] Hi.
  destruct (Z.eq_dec v 0) as [->|Hne]; [apply Z.bits_0|].
  apply Z.bits_above_log2; [lia|].
  assert (Z.log2 v < 8); [|lia].
  apply Z.log2_lt_pow2; lia.
Qed.

Lemma same_cells_eq (b1 b2 : list Z) :
  board b1 -> board b2 -> same_cells b1 b2 -> b1 = b2.
Proof.
  intros [Hl1 Hb1] [Hl2 Hb2] Hsame.
  apply (list_eq_same_length _ _ 8%nat Hl2 Hl1).
  intros i v1 v2 Hi Hv1 Hv2. apply Nat2Z.inj_lt in Hi.
  rewrite Forall_lookup in Hb1, Hb2.
  pose proof (Hb1 _ _ Hv1) as Hbyte1. pose proof (Hb2 _ _ Hv2) as Hbyte2.
  apply Z.bits_inj'. intros c Hc.
  destruct (Z.ltb_spec c 8) as [Hlt|Hge].
  - specialize (Hsame (Z.of_nat i) c ltac:(unfold NUMROWS; lia) ltac:(unfold NUMCOLS; lia)).
    unfold cell, subscript in Hsame.
    destruct (Z.ltb_spec (Z.of_nat i) 0); [lia|].
    rewrite Nat2Z.id, Hv1, Hv2 in Hsame. exact Hsame.
  - now rewrite !byte_high_bits.
Qed.

Lemma blinker_flips (h : bool) (r c : Z) :
  1 <= r <= 6 -> 1 <= c <= 6 ->
  advance (blinker h r c) = blinker (negb h) r c /\
  blinker h r c <> blinker (negb h) r c /\
  blinker h r c <> all_dead.
Proof.
  intros Hr Hc.
  assert (r = 1 \/ r = 2 \/ r = 3 \/ r = 4 \/ r = 5 \/ r = 6) as Hrs by lia.
  assert (c = 1 \/ c = 2 \/ c = 3 \/ c = 4 \/ c = 5 \/ c = 6) as Hcs by lia.
  destruct h;
    repeat (destruct Hrs as [->|Hrs]); try subst r;
    repeat (destruct Hcs as [->|Hcs]); try subst c;
    (split; [vm_compute; reflexivity | split; vm_compute; discriminate]).
Qed.

(** A board of period two whose two phases are alive: from the second
    cycle on, the successor is the board of two generations back. *)
Lemma oscillator_repeats k : forall s,
  length (gameboard s) = 8%nat -> length (newgameboard s) = 8%nat ->
  length (oldgameboard s) = 8%nat ->
  advance (advance (gameboard s)) = gameboard s ->
  advance (gameboard s) <> gameboard s ->
  gameboard s <> all_dead -> advance (gameboard s) <> all_dead ->
  exists s', nth_cycle (S k) s = Some ((false, false, true), s').
Proof.
  induction k as [|k IH]; intros s Hg Hn Ho Hper Hne Hd Hd'.
  - cbn [nth_cycle]. rewrite (bind_run _ _ _ _ _ (cycle_run s Hg Hn Ho)).
    rewrite cycle_run by (first [reflexivity | exact Hg]). cbn [gameboard oldgameboard].
    eexists. f_equal. f_equal. f_equal; [f_equal|].
    + apply bool_decide_eq_false. congruence.
    + now apply bool_decide_eq_false.
    + apply bool_decide_eq_true. congruence.
  - change (nth_cycle (S (S k))) with (cycle;; nth_cycle (S k)).
    rewrite (bind_run _ _ _ _ _ (cycle_run s Hg Hn Ho)).
    apply IH; cbn [gameboard newgameboard oldgameboard];
      first [reflexivity | exact Hg | congruence].
Qed.

End PackedFacts.

(** ** The boolean-grid sketch *)

Section GridFacts.
Import Grid.


Lemma grid_board_row (b : list (list bool)) (r : Z) :
  board b -> 0 <= r < 8 ->
  exists cells, subscript b r = Some cells /\ length cells = 8%nat.
Proof.
  intros [Hlen Hrows] Hr.
  destruct (subscript_in_range b r) as [cells Hcells]; [lia|].
  exists cells. split; [exact Hcells|].
  apply subscript_lookup in Hcells as [_ Hcells].
  rewrite Forall_lookup in Hrows. exact (Hrows _ _ Hcells).
Qed.

Lemma grid_load_gameBoard_run s (r c : Z) :
  board (gameBoard s) -> 0 <= r < 8 -> 0 <= c < 8 ->
  load_gameBoard r c s = Some (cell (gameBoard s) r c, s).
Proof.
  intros Hb Hr Hc. unfold load_gameBoard, cell.
  destruct (grid_board_row _ r Hb Hr) as (cells & -> & Hlen).
  destruct (subscript_in_range cells c) as [b ->]; [lia|]. reflexivity.
Qed.

Lemma grid_isCellAlive_run s (r c : Z) :
  board (gameBoard s) ->
  isCellAlive r c s = Some (alive (gameBoard s) r c, s).
Proof.
  intros Hb. unfold isCellAlive, alive.
  destruct ((r <? 0) || (c <? 0) || (r >=? NUMROWS) || (c >=? NUMCOLS)) eqn:E;
    [reflexivity|].
  unfold NUMROWS, NUMCOLS in E.
  rewrite (bind_run _ _ _ _ _ (grid_load_gameBoard_run s r c Hb ltac:(lia) ltac:(lia))).
  unfold ret. now destruct (cell (gameBoard s) r c).
Qed.

Lemma grid_countNeighbors_run s (r c : Z) :
  board (gameBoard s) -> 0 <= r < 8 -> 0 <= c < 8 ->
  countNeighbors r c s = Some (neighbours (gameBoard s) r c, s).
Proof.
  intros Hb Hr Hc. unfold countNeighbors.
  rewrite (for_loop_pure
    (fun count rowDelta =>
       fold_left (fun count colDelta =>
         if negb ((colDelta =? 0) && (rowDelta =? 0))
         then if alive (gameBoard s) (to_char (rowDelta + r)) (to_char (colDelta + c))
              then to_byte (count + 1) else count
         else count) (seqZ (-1) 3) count)).
  2:{ intros acc rd _. apply for_loop_pure. intros count cd _.
      destruct (negb ((cd =? 0) && (rd =? 0))); [|reflexivity].
      now rewrite (bind_run _ _ _ _ _ (grid_isCellAlive_run s _ _ Hb)). }
  f_equal. f_equal.
  change (seqZ (-1) 3) with [-1; 0; 1]. cbn [fold_left Z.eqb andb negb].
  rewrite !to_char_small by lia. unfold neighbours.
  replace (-1 + r) with (r - 1) by lia. replace (-1 + c) with (c - 1) by lia.
  replace (1 + r) with (r + 1) by lia. replace (1 + c) with (c + 1) by lia.
  rewrite !Z.add_0_l.
  destruct (alive _ (r - 1) (c - 1)), (alive _ (r - 1) c), (alive _ (r - 1) (c + 1)),
    (alive _ r (c - 1)), (alive _ r (c + 1)), (alive _ (r + 1) (c - 1)),
    (alive _ (r + 1) c), (alive _ (r + 1) (c + 1)); reflexivity.
Qed.

Lemma grid_store_newGameBoard_run s (r c : Z) (b : bool) cells :
  0 <= r -> newGameBoard s !! Z.to_nat r = Some cells ->
  0 <= c < Z.of_nat (length cells) ->
  store_newGameBoard r c b s =
  Some (tt, set_newGameBoard
              (<[Z.to_nat r := <[Z.to_nat c := b]> cells]> (newGameBoard s)) s).
Proof.
  intros Hr Hcells Hc. unfold store_newGameBoard.
  rewrite (lookup_subscript _ _ _ Hr Hcells). unfold in_bounds.
  destruct (Z.leb_spec 0 c); [|lia].
  destruct (Z.ltb_spec c (Z.of_nat (length cells))); [reflexivity | lia].
Qed.

Lemma grid_calculateNewGameBoard_cell_run s (r c : Z) cells :
  board (gameBoard s) -> 0 <= r < 8 -> 0 <= c < 8 ->
  newGameBoard s !! Z.to_nat r = Some cells -> length cells = 8%nat ->
  calculateNewGameBoard_cell r c s =
  Some (tt, set_newGameBoard
              (<[Z.to_nat r := <[Z.to_nat c := next_cell (gameBoard s) r c]> cells]>
                 (newGameBoard s)) s).
Proof.
  intros Hb Hr Hc Hcells Hlen.
  pose proof (grid_load_gameBoard_run s r c Hb Hr Hc) as Hload.
  assert (Hw : forall b, store_newGameBoard r c b s =
    Some (tt, set_newGameBoard
                (<[Z.to_nat r := <[Z.to_nat c := b]> cells]> (newGameBoard s)) s)).
  { intros b. apply grid_store_newGameBoard_run; [lia | exact Hcells | lia]. }
  unfold calculateNewGameBoard_cell, next_cell, life.
  rewrite (bind_run _ _ _ _ _ (grid_countNeighbors_run s r c Hb Hr Hc)).
  rewrite (bind_run _ _ _ _ _ Hload).
  destruct (cell (gameBoard s) r c && (neighbours (gameBoard s) r c <? 2));
    [exact (Hw false)|].
  rewrite (bind_run _ _ _ _ _ Hload).
  destruct (cell (gameBoard s) r c &&
            ((neighbours (gameBoard s) r c =? 2) || (neighbours (gameBoard s) r c =? 3)));
    [exact (Hw true)|].
  rewrite (bind_run _ _ _ _ _ Hload).
  destruct (cell (gameBoard s) r c && (neighbours (gameBoard s) r c >? 3));
    [exact (Hw false)|].
  rewrite (bind_run _ _ _ _ _ Hload).
  destruct (negb (cell (gameBoard s) r c) && (neighbours (gameBoard s) r c =? 3));
    [exact (Hw true) | exact (Hw false)].
Qed.

Lemma grid_columns_run (r : Z) cs : forall s cells,
  board (gameBoard s) -> 0 <= r < 8 ->
  Forall (fun c => 0 <= c < 8) cs ->
  newGameBoard s !! Z.to_nat r = Some cells -> length cells = 8%nat ->
  for_each cs (fun col => calculateNewGameBoard_cell r col) s =
  Some (tt, set_newGameBoard
              (<[Z.to_nat r :=
                   fold_left (fun l c => <[Z.to_nat c := next_cell (gameBoard s) r c]> l)
                             cs cells]>
                 (newGameBoard s)) s).
Proof.
  induction cs as [|c cs IH]; intros s cells Hb Hr Hcs Hcells Hlen.
  - cbn. rewrite (list_insert_id _ _ _ Hcells). now destruct s.
  - inversion Hcs as [|? ? Hc Hcs']; subst.
    rewrite for_each_cons.
    rewrite (bind_run _ _ _ _ _
               (grid_calculateNewGameBoard_cell_run s r c cells Hb Hr Hc Hcells Hlen)).
    erewrite IH; [| exact Hb | exact Hr | exact Hcs' | | ].
    + cbn. now rewrite list_insert_insert_eq.
    + cbn. apply list_lookup_insert_eq. now apply lookup_lt_Some in Hcells.
    + now rewrite length_insert.
Qed.

Lemma grid_rows_run rs : forall s,
  board (gameBoard s) -> board (newGameBoard s) ->
  Forall (fun r => 0 <= r < 8) rs ->
  for_each rs (fun row => for_each (seqZ 0 NUMCOLS)
                            (fun col => calculateNewGameBoard_cell row col)) s =
  Some (tt, set_newGameBoard
              (fold_left (fun nw r =>
                            <[Z.to_nat r := next_cell (gameBoard s) r <$> seqZ 0 NUMCOLS]> nw)
                         rs (newGameBoard s)) s).
Proof.
  induction rs as [|r rs IH]; intros s Hb Hnew Hrs.
  - cbn. now destruct s.
  - inversion Hrs as [|? ? Hr Hrs']; subst.
    rewrite for_each_cons.
    destruct (grid_board_row _ r Hnew Hr) as (cells & Hcells & Hlen).
    apply subscript_lookup in Hcells as [_ Hcells].
    rewrite (bind_run _ _ _ _ _
               (grid_columns_run r (seqZ 0 NUMCOLS) s cells Hb Hr
                  ltac:(now repeat constructor) Hcells Hlen)).
    unfold NUMCOLS at 1. rewrite index_fold_fmap by exact Hlen.
    rewrite IH; [reflexivity | exact Hb | | exact Hrs'].
    destruct Hnew as [Hn1 Hn2]. split; cbn.
    + now rewrite length_insert.
    + apply Forall_insert; [exact Hn2 | reflexivity].
Qed.

Theorem grid_calculateNewGameBoard_run s :
  board (gameBoard s) -> board (newGameBoard s) ->
  calculateNewGameBoard s =
  Some (tt, set_newGameBoard (advance (gameBoard s)) s).
Proof.
  intros Hb Hnew. unfold calculateNewGameBoard.
  rewrite grid_rows_run; [| exact Hb | exact Hnew | now repeat constructor].
  unfold NUMROWS at 1.
  rewrite (index_fold_fmap (fun r => next_cell (gameBoard s) r <$> seqZ 0 NUMCOLS))
    by apply Hnew.
  reflexivity.
Qed.

Lemma grid_cell_advance b (r c : Z) :
  0 <= r < 8 -> 0 <= c < 8 -> cell (advance b) r c = next_cell b r c.
Proof.
  intros Hr Hc. unfold cell, advance, subscript.
  destruct (Z.ltb_spec r 0); [lia|]. destruct (Z.ltb_spec c 0); [lia|].
  rewrite list_lookup_fmap.
  assert (seqZ 0 NUMROWS !! Z.to_nat r = Some r) as ->.
  { rewrite lookup_seqZ. unfold NUMROWS. split; lia. }
  cbn [fmap option_fmap option_map]. rewrite list_lookup_fmap.
  assert (seqZ 0 NUMCOLS !! Z.to_nat c = Some c) as ->.
  { rewrite lookup_seqZ. unfold NUMCOLS. split; lia. }
  reflexivity.
Qed.

End GridFacts.

(** * Known patterns *)

(** A 2x2 block is still, an isolated cell dies, a blinker turns; the block
    is classified stable on the next cycle. *)
Example block_is_still :
  Packed.advance [0; 0; 0; 24; 24; 0; 0; 0] = [0; 0; 0; 24; 24; 0; 0; 0].
Proof. vm_compute. reflexivity. Qed.

Example isolated_cell_dies :
  Packed.advance (Packed.single_cell 3 4) = Packed.all_dead.
Proof. vm_compute. reflexivity. Qed.

Example blinker_turns :
  Packed.blinker true 3 3 = [0; 0; 0; 28; 0; 0; 0; 0] /\
  Packed.advance (Packed.blinker true 3 3) = [0; 0; 8; 8; 8; 0; 0; 0].
Proof. split; vm_compute; reflexivity. Qed.

Example block_is_detected_stable :
  fst <$> Packed.cycle (Packed.started_with [0; 0; 0; 24; 24; 0; 0; 0])
  = Some (true, false, false).
Proof. vm_compute. reflexivity. Qed.

(** The first pass of [loop()] after power-on, randomizer pin at 0V: the
    board is shown, then replaced by its successor. *)
Example first_pass_of_loop :
  (fun r => (Packed.gameboard r.2, Packed.oldgameboard r.2, Packed.trace r.2))
    <$> Packed.loop (fun _ _ => 0) (fun st => (st, st)) Packed.initial_state
  = Some ([0; 112; 64; 96; 0; 0; 0; 0], [0; 48; 96; 32; 0; 0; 0; 0],
          [SetColumn 0 7 0; SetColumn 0 6 48; SetColumn 0 5 96; SetColumn 0 4 32;
           SetColumn 0 3 0; SetColumn 0 2 0; SetColumn 0 1 0; SetColumn 0 0 0;
           Delay 333]).
Proof. vm_compute. reflexivity. Qed.

(** The first successor of the power-on board of the grid sketch. *)
Example grid_first_successor :
  Grid.advance (Grid.gameBoard Grid.initial_state)
  = [ [false; false; false; false; false; false; false; false];
      [false; true;  true;  true;  false; false; false; false];
      [false; true;  false; false; false; false; false; false];
      [false; true;  true;  false; false; false; false; false];
      [false; false; false; false; false; false; false; false];
      [false; false; false; false; false; false; false; false];
      [false; false; false; false; false; false; false; false];
      [false; false; false; false; false; false; false; false] ].
Proof. vm_compute. reflexivity. Qed.

(** * The claims *)

Lemma life_decision_table (a : bool) (n : Z) : decision_table a n (life a n).
Proof.
  unfold decision_table, life.
  destruct a; cbn [andb negb];
    destruct (Z.ltb_spec n 2), (Z.eqb_spec n 2), (Z.eqb_spec n 3), (Z.gtb_spec n 3);
    cbn [orb]; repeat split; intros; first [reflexivity | discriminate | lia].
Qed.

Lemma packed_initial_wf : Packed.wf Packed.initial_state.
Proof. decide_it. Qed.

Lemma grid_initial_wf : Grid.wf Grid.initial_state.
Proof. decide_it. Qed.

(** C1.  For every board and every cell [(r, c)], [calculateNewGameBoard]
    returns, and the successor cell it leaves in the target board follows
    the decision table of the game on [n = countNeighbors(r, c)]: a live
    cell with [n < 2] dies, with [n = 2] or [n = 3] lives, with [n > 3]
    dies; a dead cell with [n = 3] becomes alive and any other dead cell
    stays dead.  Both sketches. *)
Theorem calculateNewGameBoard_decision_table
    (s : Packed.state) (g : Grid.state) (r c : Z) :
  Packed.wf s -> Grid.wf g -> 0 <= r < NUMROWS -> 0 <= c < NUMCOLS ->
  (exists s' n,
     Packed.calculateNewGameBoard s = Some (tt, s') /\
     Packed.countNeighbors r c s = Some (n, s) /\
     decision_table (Packed.cell (Packed.gameboard s) r c) n
                    (Packed.cell (Packed.newgameboard s') r c)) /\
  (exists g' n,
     Grid.calculateNewGameBoard g = Some (tt, g') /\
     Grid.countNeighbors r c g = Some (n, g) /\
     decision_table (Grid.cell (Grid.gameBoard g) r c) n
                    (Grid.cell (Grid.newGameBoard g') r c)).
Proof.
  intros ([Hg _] & [Hn _] & _) (Hgb & Hnb & _) Hr Hc. unfold NUMROWS, NUMCOLS in *.
  split.
  - eexists _, _. split; [now apply calculateNewGameBoard_run|].
    split; [now apply countNeighbors_run|].
    cbn [Packed.newgameboard Packed.set_array]. rewrite cell_advance by assumption.
    apply life_decision_table.
  - eexists _, _. split; [now apply grid_calculateNewGameBoard_run|].
    split; [now apply grid_countNeighbors_run|].
    cbn [Grid.newGameBoard Grid.set_newGameBoard]. rewrite grid_cell_advance by assumption.
    apply life_decision_table.
Qed.

Lemma calculateNewGameBoard_decision_table_witness :
  (exists s' n,
     Packed.calculateNewGameBoard Packed.initial_state = Some (tt, s') /\
     Packed.countNeighbors 1 4 Packed.initial_state = Some (n, Packed.initial_state) /\
     decision_table (Packed.cell (Packed.gameboard Packed.initial_state) 1 4) n
                    (Packed.cell (Packed.newgameboard s') 1 4)) /\
  (exists g' n,
     Grid.calculateNewGameBoard Grid.initial_state = Some (tt, g') /\
     Grid.countNeighbors 1 4 Grid.initial_state = Some (n, Grid.initial_state) /\
     decision_table (Grid.cell (Grid.gameBoard Grid.initial_state) 1 4) n
                    (Grid.cell (Grid.newGameBoard g') 1 4)).
Proof.
  apply (calculateNewGameBoard_decision_table Packed.initial_state Grid.initial_state 1 4).
  - exact packed_initial_wf.
  - exact grid_initial_wf.
  - unfold NUMROWS; lia.
  - unfold NUMCOLS; lia.
Defined.

Section PackedClaims.
Import Packed.

(** C2.  The [stable] local computed by [swapGameBoards] is true exactly
    when the successor board is cell for cell the current board; after
    [calculateNewGameBoard] the successor is [advance] of the current
    board, so [stable] is true exactly when [advance current = current]. *)
Theorem swapGameBoards_stable_iff (s : state) :
  wf s ->
  (exists f s',
     swapGameBoards_loop s = Some (f, s') /\
     (stable_of f = true <-> same_cells (newgameboard s) (gameboard s))) /\
  (exists s1 f s2,
     calculateNewGameBoard s = Some (tt, s1) /\
     swapGameBoards_loop s1 = Some (f, s2) /\
     gameboard s1 = gameboard s /\
     newgameboard s1 = advance (gameboard s) /\
     (stable_of f = true <-> advance (gameboard s) = gameboard s)).
Proof.
  intros (Hg & Hn & Ho & _). split.
  - eexists _, _. split; [apply swapGameBoards_loop_run; apply Hg || apply Hn || apply Ho|].
    cbn [stable_of fst]. rewrite bool_decide_eq_true. split.
    + intros <-. intros r c _ _. reflexivity.
    + intros Hsame. symmetry. now apply same_cells_eq.
  - eexists _, _, _.
    split; [apply calculateNewGameBoard_run; apply Hg || apply Hn|].
    split; [apply swapGameBoards_loop_run; first [apply Hg | apply Ho | reflexivity]|].
    cbn [gameboard newgameboard set_array stable_of fst].
    split; [reflexivity|]. split; [reflexivity|].
    rewrite bool_decide_eq_true. split; congruence.
Qed.

Lemma swapGameBoards_stable_iff_witness :
  (exists f s',
     swapGameBoards_loop initial_state = Some (f, s') /\
     (stable_of f = true <->
      same_cells (newgameboard initial_state) (gameboard initial_state))) /\
  (exists s1 f s2,
     calculateNewGameBoard initial_state = Some (tt, s1) /\
     swapGameBoards_loop s1 = Some (f, s2) /\
     gameboard s1 = gameboard initial_state /\
     newgameboard s1 = advance (gameboard initial_state) /\
     (stable_of f = true <->
      advance (gameboard initial_state) = gameboard initial_state)).
Proof. apply (swapGameBoards_stable_iff initial_state). exact packed_initial_wf. Defined.

(** C3 as stated does not hold.  From the power-on state with a
    horizontal blinker centred on [(3, 3)], [repeat] is true on generation
    2 and again on generation 3, two consecutive generations; so it does
    not fire on every other generation only. *)
Lemma blinker_repeat_fires_on_consecutive_generations :
  (exists s', nth_cycle 1 (started_with (blinker true 3 3)) = Some ((false, false, true), s')) /\
  (exists s', nth_cycle 2 (started_with (blinker true 3 3)) = Some ((false, false, true), s')) /\
  ~ repeat_alternates (started_with (blinker true 3 3)).
Proof.
  assert (H2 : exists s', nth_cycle 2 (started_with (blinker true 3 3))
                          = Some ((false, false, true), s')).
  { eexists. vm_compute. reflexivity. }
  split; [eexists; vm_compute; reflexivity|]. split; [exact H2|].
  intros Halt. destruct (Halt 2%nat) as (f & s' & Hrun & Hiff).
  destruct H2 as [s2 H2]. rewrite H2 in Hrun. injection Hrun as <- _.
  cbn in Hiff. destruct Hiff as [Hiff _]. specialize (Hiff eq_refl). discriminate.
Qed.

(** C3, amended.  From any state whose current board is a blinker away
    from the edges and whose previous board is all dead, iterating the
    advance-classify-shift cycle gives [repeat = false] on the first
    generation and [repeat = true] on every later generation ([stable] and
    [dead] are false throughout).  [k] counts the cycles already made. *)
Theorem blinker_repeat_from_second_generation (h : bool) (r c : Z) (s : state) (k : nat) :
  1 <= r <= 6 -> 1 <= c <= 6 ->
  wf s -> gameboard s = blinker h r c -> oldgameboard s = all_dead ->
  exists s', nth_cycle k s = Some ((false, false, negb (Nat.eqb k 0)), s').
Proof.
  intros Hr Hc (Hg & Hn & Ho & _) Hb Hold.
  destruct (blinker_flips h r c Hr Hc) as (Hflip & Hne & Hnd).
  destruct (blinker_flips (negb h) r c Hr Hc) as (Hflip' & _ & Hnd').
  rewrite negb_involutive in Hflip'.
  destruct k as [|k].
  - cbn [nth_cycle Nat.eqb negb].
    rewrite cycle_run by (apply Hg || apply Hn || apply Ho).
    eexists. f_equal. f_equal. f_equal; [f_equal|]; apply bool_decide_eq_false.
    + rewrite Hb, Hflip. exact Hne.
    + rewrite Hb. exact Hnd.
    + rewrite Hold, Hb, Hflip. congruence.
  - apply oscillator_repeats; try (apply Hg || apply Hn || apply Ho);
      rewrite Hb, ?Hflip, ?Hflip'; congruence.
Qed.

Lemma blinker_repeat_from_second_generation_witness :
  exists s', nth_cycle 5 (started_with (blinker false 2 4))
             = Some ((false, false, negb (Nat.eqb 5 0)), s').
Proof.
  apply (blinker_repeat_from_second_generation false 2 4 (started_with (blinker false 2 4)) 5).
  - lia.
  - lia.
  - decide_it.
  - reflexivity.
  - reflexivity.
Defined.

(** C4.  [countNeighbors(0, 0)] returns the number of live cells among
    [(0,1)], [(1,0)] and [(1,1)] only, whatever rows and columns 7 hold,
    and so a value of [0..3]. *)
Theorem countNeighbors_corner (s : state) :
  wf s ->
  exists n,
    countNeighbors 0 0 s = Some (n, s) /\
    n = Z.b2z (cell (gameboard s) 0 1) + Z.b2z (cell (gameboard s) 1 0)
        + Z.b2z (cell (gameboard s) 1 1) /\
    0 <= n <= 3.
Proof.
  intros ([Hg _] & _).
  assert (Hn : neighbours (gameboard s) 0 0 =
               Z.b2z (cell (gameboard s) 0 1) + Z.b2z (cell (gameboard s) 1 0)
               + Z.b2z (cell (gameboard s) 1 1)).
  { unfold neighbours, alive.
    change (0 - 1) with (-1). change (0 + 1) with 1.
    destruct (cell (gameboard s) 0 1), (cell (gameboard s) 1 0),
      (cell (gameboard s) 1 1); vm_compute; reflexivity. }
  exists (neighbours (gameboard s) 0 0).
  split; [apply countNeighbors_run; [exact Hg | lia | lia]|].
  split; [exact Hn|]. rewrite Hn.
  destruct (cell (gameboard s) 0 1), (cell (gameboard s) 1 0),
    (cell (gameboard s) 1 1); cbn [Z.b2z]; lia.
Qed.

Lemma countNeighbors_corner_witness :
  exists n,
    countNeighbors 0 0 (started_with [3; 3; 0; 0; 0; 0; 0; 255]) =
      Some (n, started_with [3; 3; 0; 0; 0; 0; 0; 255]) /\
    n = Z.b2z (cell [3; 3; 0; 0; 0; 0; 0; 255] 0 1) + Z.b2z (cell [3; 3; 0; 0; 0; 0; 0; 255] 1 0)
        + Z.b2z (cell [3; 3; 0; 0; 0; 0; 0; 255] 1 1) /\
    0 <= n <= 3.
Proof.
  apply (countNeighbors_corner (started_with [3; 3; 0; 0; 0; 0; 0; 255])).
  decide_it.
Defined.

Lemma advance_all_dead : advance all_dead = all_dead.
Proof. vm_compute. reflexivity. Qed.

(** C6.  The all-dead board advances to the all-dead board; on that
    transition [dead] and [stable] are both true, and one call of
    [swapGameBoards] runs both branches: it shows the idle sprite and
    pauses one second, then pauses two seconds and reseeds.  The C
    library's [random()] is assumed to return values of [0, RANDOM_MAX]. *)
Theorem dead_board_is_dead_and_stable
    (analog_sample : nat -> Z -> Z) (libc_random : Z -> Z * Z) (s : state) :
  (forall st, 0 <= (libc_random st).1 <= RANDOM_MAX) ->
  wf s -> gameboard s = all_dead ->
  advance all_dead = all_dead /\
  exists s1,
    calculateNewGameBoard s = Some (tt, s1) /\
    gameboard s1 = all_dead /\ newgameboard s1 = all_dead /\
    (exists f s2,
       swapGameBoards_loop s1 = Some (f, s2) /\
       dead_of f = true /\ stable_of f = true) /\
    (exists s3 rest,
       swapGameBoards analog_sample libc_random s1 = Some (tt, s3) /\
       trace s3 =
         trace s ++ sprite_events (ij s) ++ [Delay 1000; Delay 2000] ++ rest).
Proof.
  intros Hrand ([Hg _] & [Hn _] & [Ho _] & [Hi _]) Hdead.
  split; [exact advance_all_dead|].
  pose proof (calculateNewGameBoard_run s Hg Hn) as Hcalc.
  rewrite Hdead, advance_all_dead in Hcalc.
  set (s1 := set_array Newgameboard all_dead s) in *.
  assert (Hg1 : gameboard s1 = all_dead) by exact Hdead.
  assert (Hloop := swapGameBoards_loop_run s1 Hg eq_refl Ho).
  change (newgameboard s1) with all_dead in Hloop. rewrite Hg1 in Hloop.
  exists s1. split; [exact Hcalc|]. split; [exact Hg1|]. split; [reflexivity|].
  split; [eexists _, _; split; [exact Hloop | split; reflexivity]|].
  unfold swapGameBoards. rewrite (bind_run _ _ _ _ _ Hloop).
  rewrite bool_decide_eq_true_2 by reflexivity. cbn [when orb].
  match goal with |- context [bind _ _ ?t] => set (s2 := t) end.
  assert (Hsprite : (setSprite Ij;; emit (Delay 1000)) s2 =
                    Some (tt, add_trace (sprite_events (ij s) ++ [Delay 1000]) s2)).
  { rewrite (bind_run _ _ _ _ _ (setSprite_run Ij s2 Hi)).
    unfold emit, modify, add_trace, s2. cbn. now rewrite <- app_assoc. }
  rewrite (bind_run _ _ _ _ _ Hsprite).
  match goal with |- context [bind _ _ ?t] => set (s2' := t) end.
  assert (Hemit : emit (Delay 2000) s2' = Some (tt, add_trace [Delay 2000] s2'))
    by reflexivity.
  rewrite (bind_run _ _ _ _ _ Hemit).
  destruct (runs_bind (setUpInitialBoard analog_sample libc_random)
              (fun _ => setSprite Gameboard)
              (runs_setUpInitialBoard analog_sample libc_random Hrand)
              (fun _ => runs_setSprite_Gameboard)
              (add_trace [Delay 2000] s2'))
    as ([] & s3 & rest & Hrun & _ & Htrace).
  { split; [reflexivity | exact Hi]. }
  exists s3, rest. split; [exact Hrun|].
  rewrite Htrace. cbn. now rewrite <- !app_assoc.
Qed.

Lemma dead_board_is_dead_and_stable_witness :
  advance all_dead = all_dead /\
  exists s1,
    calculateNewGameBoard (started_with all_dead) = Some (tt, s1) /\
    gameboard s1 = all_dead /\ newgameboard s1 = all_dead /\
    (exists f s2,
       swapGameBoards_loop s1 = Some (f, s2) /\
       dead_of f = true /\ stable_of f = true) /\
    (exists s3 rest,
       swapGameBoards (fun _ _ => 1023) (fun st => (st mod 8191, st + 1)) s1
         = Some (tt, s3) /\
       trace s3 =
         trace (started_with all_dead) ++ sprite_events (ij (started_with all_dead))
           ++ [Delay 1000; Delay 2000] ++ rest).
Proof.
  apply (dead_board_is_dead_and_stable
           (fun _ _ => 1023) (fun st => (st mod 8191, st + 1)) (started_with all_dead)).
  - intros st. cbn [fst]. pose proof (Z.mod_pos_bound st 8191). unfold RANDOM_MAX. lia.
  - decide_it.
  - reflexivity.
Defined.

(** C10.  [oldgameboard] starts all dead, so when the first successor is
    all dead, [repeat] is true on the very first cycle. *)
Theorem repeat_fires_on_first_generation (s : state) :
  wf s -> oldgameboard s = oldgameboard initial_state ->
  advance (gameboard s) = all_dead ->
  oldgameboard initial_state = all_dead /\
  exists f s', cycle s = Some (f, s') /\ repeat_of f = true.
Proof.
  intros ([Hg _] & [Hn _] & [Ho _] & _) Hold Hnext.
  split; [reflexivity|].
  eexists _, _. split; [now apply cycle_run|].
  cbn [repeat_of snd]. apply bool_decide_eq_true_2. now rewrite Hold, Hnext.
Qed.

Lemma repeat_fires_on_first_generation_witness :
  oldgameboard initial_state = all_dead /\
  exists f s', cycle (started_with (single_cell 3 4)) = Some (f, s') /\ repeat_of f = true.
Proof.
  apply (repeat_fires_on_first_generation (started_with (single_cell 3 4))).
  - decide_it.
  - reflexivity.
  - vm_compute. reflexivity.
Defined.

End PackedClaims.

Lemma isCellAlive_outside (s : Packed.state) (row col : Z) :
  row < 0 \/ col < 0 \/ row >= NUMROWS \/ col >= NUMCOLS ->
  Packed.isCellAlive row col s = Some (false, s).
Proof.
  intros H. unfold Packed.isCellAlive.
  destruct (Z.ltb_spec row 0), (Z.ltb_spec col 0), (Z.geb_spec row NUMROWS),
    (Z.geb_spec col NUMCOLS); cbn [orb]; first [reflexivity | lia].
Qed.

Lemma grid_isCellAlive_outside (g : Grid.state) (row col : Z) :
  row < 0 \/ col < 0 \/ row >= NUMROWS \/ col >= NUMCOLS ->
  Grid.isCellAlive row col g = Some (false, g).
Proof.
  intros H. unfold Grid.isCellAlive.
  destruct (Z.ltb_spec row 0), (Z.ltb_spec col 0), (Z.geb_spec row NUMROWS),
    (Z.geb_spec col NUMCOLS); cbn [orb]; first [reflexivity | lia].
Qed.

(** C5.  [isCellAlive(row, col)] returns false, without fault, for every
    coordinate outside the board, and the stored cell for every
    coordinate inside.  Both sketches. *)
Theorem isCellAlive_total (s : Packed.state) (g : Grid.state) (row col : Z) :
  Packed.wf s -> Grid.wf g ->
  (row < 0 \/ col < 0 \/ row >= NUMROWS \/ col >= NUMCOLS ->
   Packed.isCellAlive row col s = Some (false, s) /\
   Grid.isCellAlive row col g = Some (false, g)) /\
  (0 <= row < NUMROWS -> 0 <= col < NUMCOLS ->
   (exists v, Packed.gameboard s !! Z.to_nat row = Some v /\
              Packed.isCellAlive row col s = Some (Z.testbit v col, s)) /\
   (exists cells b, Grid.gameBoard g !! Z.to_nat row = Some cells /\
                    cells !! Z.to_nat col = Some b /\
                    Grid.isCellAlive row col g = Some (b, g))).
Proof.
  intros ([Hg _] & _) (Hgb & _). split.
  - intros Hout. split; [now apply isCellAlive_outside | now apply grid_isCellAlive_outside].
  - unfold NUMROWS, NUMCOLS. intros Hr Hc. split.
    + destruct (subscript_in_range (Packed.gameboard s) row ltac:(lia)) as [v Hv].
      exists v. split; [now apply subscript_lookup in Hv|].
      rewrite isCellAlive_run by exact Hg. unfold Packed.alive, Packed.cell. rewrite Hv.
      destruct (Z.ltb_spec row 0), (Z.ltb_spec col 0), (Z.geb_spec row NUMROWS),
        (Z.geb_spec col NUMCOLS); unfold NUMROWS, NUMCOLS in *;
        cbn [orb]; first [reflexivity | lia].
    + destruct (grid_board_row _ row Hgb Hr) as (cells & Hcells & Hlen).
      destruct (subscript_in_range cells col ltac:(lia)) as [b Hb].
      exists cells, b.
      split; [now apply subscript_lookup in Hcells|].
      split; [now apply subscript_lookup in Hb|].
      rewrite grid_isCellAlive_run by exact Hgb. unfold Grid.alive, Grid.cell.
      rewrite Hcells, Hb.
      destruct (Z.ltb_spec row 0), (Z.ltb_spec col 0), (Z.geb_spec row NUMROWS),
        (Z.geb_spec col NUMCOLS); unfold NUMROWS, NUMCOLS in *;
        cbn [orb]; first [reflexivity | lia].
Qed.

Lemma isCellAlive_total_witness :
  (Packed.isCellAlive (-1) 8 Packed.initial_state = Some (false, Packed.initial_state) /\
   Grid.isCellAlive (-1) 8 Grid.initial_state = Some (false, Grid.initial_state)) /\
  (exists v, Packed.gameboard Packed.initial_state !! Z.to_nat 1 = Some v /\
             Packed.isCellAlive 1 4 Packed.initial_state
               = Some (Z.testbit v 4, Packed.initial_state)) /\
  (exists cells b, Grid.gameBoard Grid.initial_state !! Z.to_nat 1 = Some cells /\
                   cells !! Z.to_nat 4 = Some b /\
                   Grid.isCellAlive 1 4 Grid.initial_state = Some (b, Grid.initial_state)).
Proof.
  split.
  - apply (isCellAlive_total Packed.initial_state Grid.initial_state (-1) 8);
      [decide_it | decide_it | lia].
  - apply (isCellAlive_total Packed.initial_state Grid.initial_state 1 4);
      [decide_it | decide_it | unfold NUMROWS; lia | unfold NUMCOLS; lia].
Defined.

(** C7.  [calculateNewGameBoard] always returns and changes nothing but
    the target board: the current board, the previous board, the sprite,
    the random generator, the analog conversions and the trace of external
    calls are as before.  Both sketches. *)
Theorem calculateNewGameBoard_frame (s : Packed.state) (g : Grid.state) :
  Packed.wf s -> Grid.wf g ->
  (exists s',
     Packed.calculateNewGameBoard s = Some (tt, s') /\
     Packed.gameboard s' = Packed.gameboard s /\
     Packed.oldgameboard s' = Packed.oldgameboard s /\
     Packed.ij s' = Packed.ij s /\
     Packed.rng s' = Packed.rng s /\
     Packed.adc_reads s' = Packed.adc_reads s /\
     Packed.trace s' = Packed.trace s) /\
  (exists g',
     Grid.calculateNewGameBoard g = Some (tt, g') /\
     Grid.gameBoard g' = Grid.gameBoard g /\
     Grid.gameboard g' = Grid.gameboard g /\
     Grid.rng g' = Grid.rng g /\
     Grid.adc_reads g' = Grid.adc_reads g /\
     Grid.trace g' = Grid.trace g).
Proof.
  intros ([Hg _] & [Hn _] & _) (Hgb & Hnb & _). split.
  - eexists. split; [now apply calculateNewGameBoard_run|]. now repeat split.
  - eexists. split; [now apply grid_calculateNewGameBoard_run|]. now repeat split.
Qed.

Lemma calculateNewGameBoard_frame_witness :
  (exists s',
     Packed.calculateNewGameBoard Packed.initial_state = Some (tt, s') /\
     Packed.gameboard s' = Packed.gameboard Packed.initial_state /\
     Packed.oldgameboard s' = Packed.oldgameboard Packed.initial_state /\
     Packed.ij s' = Packed.ij Packed.initial_state /\
     Packed.rng s' = Packed.rng Packed.initial_state /\
     Packed.adc_reads s' = Packed.adc_reads Packed.initial_state /\
     Packed.trace s' = Packed.trace Packed.initial_state) /\
  (exists g',
     Grid.calculateNewGameBoard Grid.initial_state = Some (tt, g') /\
     Grid.gameBoard g' = Grid.gameBoard Grid.initial_state /\
     Grid.gameboard g' = Grid.gameboard Grid.initial_state /\
     Grid.rng g' = Grid.rng Grid.initial_state /\
     Grid.adc_reads g' = Grid.adc_reads Grid.initial_state /\
     Grid.trace g' = Grid.trace Grid.initial_state).
Proof.
  apply (calculateNewGameBoard_frame Packed.initial_state Grid.initial_state);
    decide_it.
Defined.

(** C9.  The successor board written by [calculateNewGameBoard] does not
    depend on what the target board held: two runs from the same current
    board leave the same target board, [advance] of the current board.
    Both sketches. *)
Theorem calculateNewGameBoard_scratch_independent
    (s1 s2 : Packed.state) (g1 g2 : Grid.state) :
  Packed.wf s1 -> Packed.wf s2 -> Grid.wf g1 -> Grid.wf g2 ->
  Packed.gameboard s1 = Packed.gameboard s2 ->
  Grid.gameBoard g1 = Grid.gameBoard g2 ->
  (exists s1' s2',
     Packed.calculateNewGameBoard s1 = Some (tt, s1') /\
     Packed.calculateNewGameBoard s2 = Some (tt, s2') /\
     Packed.newgameboard s1' = Packed.newgameboard s2' /\
     Packed.newgameboard s1' = Packed.advance (Packed.gameboard s1)) /\
  (exists g1' g2',
     Grid.calculateNewGameBoard g1 = Some (tt, g1') /\
     Grid.calculateNewGameBoard g2 = Some (tt, g2') /\
     Grid.newGameBoard g1' = Grid.newGameBoard g2' /\
     Grid.newGameBoard g1' = Grid.advance (Grid.gameBoard g1)).
Proof.
  intros ([Hs1 _] & [Hn1 _] & _) ([Hs2 _] & [Hn2 _] & _) (Hg1 & Hm1 & _) (Hg2 & Hm2 & _)
    Heq Heqg.
  split.
  - eexists _, _. split; [now apply calculateNewGameBoard_run|].
    split; [now apply calculateNewGameBoard_run|].
    cbn [Packed.newgameboard Packed.set_array]. now rewrite Heq.
  - eexists _, _. split; [now apply grid_calculateNewGameBoard_run|].
    split; [now apply grid_calculateNewGameBoard_run|].
    cbn [Grid.newGameBoard Grid.set_newGameBoard]. now rewrite Heqg.
Qed.

Lemma calculateNewGameBoard_scratch_independent_witness :
  (exists s1' s2',
     Packed.calculateNewGameBoard Packed.initial_state = Some (tt, s1') /\
     Packed.calculateNewGameBoard
       (Packed.set_array Packed.Newgameboard [255; 1; 2; 3; 4; 5; 6; 7] Packed.initial_state)
       = Some (tt, s2') /\
     Packed.newgameboard s1' = Packed.newgameboard s2' /\
     Packed.newgameboard s1' = Packed.advance (Packed.gameboard Packed.initial_state)) /\
  (exists g1' g2',
     Grid.calculateNewGameBoard Grid.initial_state = Some (tt, g1') /\
     Grid.calculateNewGameBoard
       (Grid.set_newGameBoard (replicate 8 (replicate 8 true)) Grid.initial_state)
       = Some (tt, g2') /\
     Grid.newGameBoard g1' = Grid.newGameBoard g2' /\
     Grid.newGameBoard g1' = Grid.advance (Grid.gameBoard Grid.initial_state)).
Proof.
  apply (calculateNewGameBoard_scratch_independent
           Packed.initial_state
           (Packed.set_array Packed.Newgameboard [255; 1; 2; 3; 4; 5; 6; 7]
              Packed.initial_state)
           Grid.initial_state
           (Grid.set_newGameBoard (replicate 8 (replicate 8 true)) Grid.initial_state));
    first [decide_it | reflexivity].
Defined.

Section GridClaims.
Import Grid.

Lemma grid_display_row_byte (x : Z) (s : state) :
  for_loop (seqZ 0 NUMCOLS) 0
    (fun b y =>
       let b := to_byte (Z.shiftl b 1) in
       do v <- gameBoard_row (comma x y);
       if cond v then ret (to_byte (Z.lor b 1)) else ret b) s
  = Some (255, s).
Proof.
  rewrite (for_loop_pure (fun b _ => to_byte (Z.lor (to_byte (Z.shiftl b 1)) 1)));
    [reflexivity|].
  intros acc y _. reflexivity.
Qed.

Lemma grid_display_rows rs : forall s,
  length (gameboard s) = 8%nat -> Forall (fun x => 0 <= x < 8) rs ->
  for_each rs (fun x =>
    do b <- for_loop (seqZ 0 NUMCOLS) 0 (fun b y =>
              let b := to_byte (Z.shiftl b 1) in
              do v <- gameBoard_row (comma x y);
              if cond v then ret (to_byte (Z.lor b 1)) else ret b);
    store_gameboard x b) s
  = Some (tt, set_gameboard
                (fold_left (fun l x => <[Z.to_nat x := 255]> l) rs (gameboard s)) s).
Proof.
  induction rs as [|x rs IH]; intros s Hlen Hrs.
  - cbn. now destruct s.
  - inversion Hrs as [|? ? Hx Hrs']; subst.
    rewrite for_each_cons.
    assert (Hbody :
      (do b <- for_loop (seqZ 0 NUMCOLS) 0 (fun b y =>
                 let b := to_byte (Z.shiftl b 1) in
                 do v <- gameBoard_row (comma x y);
                 if cond v then ret (to_byte (Z.lor b 1)) else ret b);
       store_gameboard x b) s
      = Some (tt, set_gameboard (<[Z.to_nat x := 255]> (gameboard s)) s)).
    { rewrite (bind_run _ _ _ _ _ (grid_display_row_byte x s)).
      unfold store_gameboard, in_bounds.
      destruct (Z.leb_spec 0 x); [|lia].
      destruct (Z.ltb_spec x (Z.of_nat (length (gameboard s)))); [reflexivity | lia]. }
    rewrite (bind_run _ _ _ _ _ Hbody).
    rewrite IH; [reflexivity | cbn; now rewrite length_insert | exact Hrs'].
Qed.

Lemma grid_setSprite_rows rs : forall s,
  length (gameboard s) = 8%nat -> Forall (fun r => 0 <= r < 8) rs ->
  for_each rs (fun r => do v <- load_gameboard r; emit (SetColumn 0 (7 - r) v)) s =
  Some (tt, add_trace
              ((fun r => SetColumn 0 (7 - r) (Packed.row_at (gameboard s) r)) <$> rs) s).
Proof.
  induction rs as [|r rs IH]; intros s Hlen Hrs.
  - cbn. unfold add_trace. rewrite app_nil_r. now destruct s.
  - inversion Hrs as [|? ? Hr Hrs']; subst.
    rewrite for_each_cons.
    assert (Hbody : (do v <- load_gameboard r; emit (SetColumn 0 (7 - r) v)) s =
                    Some (tt, add_trace
                                [SetColumn 0 (7 - r) (Packed.row_at (gameboard s) r)] s)).
    { unfold bind, load_gameboard.
      now rewrite (subscript_row_at (gameboard s) r ltac:(lia)). }
    rewrite (bind_run _ _ _ _ _ Hbody).
    rewrite IH by assumption.
    unfold add_trace. cbn. now rewrite <- app_assoc.
Qed.

(** C8.  In the boolean-grid sketch [displayGameBoard] does not pack
    the cells of a row into its byte: the condition [gameBoard[x,y]] is
    the address of row [y], never null, so every row byte is 255 whatever
    the board holds, an all-dead row included. *)
Theorem displayGameBoard_lights_every_cell (s : state) :
  length (gameboard s) = 8%nat ->
  exists s',
    displayGameBoard s = Some (tt, s') /\
    gameBoard s' = gameBoard s /\
    gameboard s' = replicate 8 255 /\
    trace s' = trace s ++ Packed.sprite_events (replicate 8 255).
Proof.
  intros Hlen. unfold displayGameBoard.
  rewrite (bind_run _ _ _ _ _
             (grid_display_rows (seqZ 0 NUMROWS) s Hlen ltac:(now repeat constructor))).
  unfold NUMROWS. rewrite (index_fold_fmap (fun _ => 255)) by exact Hlen.
  unfold setSprite_gameboard.
  rewrite grid_setSprite_rows; [| reflexivity | now repeat constructor].
  eexists. split; [reflexivity|]. now repeat split.
Qed.

Lemma displayGameBoard_lights_every_cell_witness :
  exists s',
    displayGameBoard blank_state = Some (tt, s') /\
    gameBoard s' = gameBoard blank_state /\
    gameboard s' = replicate 8 255 /\
    trace s' = trace blank_state ++ Packed.sprite_events (replicate 8 255).
Proof. apply (displayGameBoard_lights_every_cell blank_state). reflexivity. Defined.

End GridClaims.

(** * Further properties of the code *)

Lemma b2z_range (b : bool) : 0 <= Z.b2z b <= 1.
Proof. destruct b; cbn; lia. Qed.

(** X1.  In both sketches [countNeighbors] of a cell of the board returns
    a count of [0 <= n < 9], as its comment says, and leaves the state as
    it was. *)
Theorem countNeighbors_range (s : Packed.state) (g : Grid.state) (r c : Z) :
  Packed.wf s -> Grid.wf g -> 0 <= r < NUMROWS -> 0 <= c < NUMCOLS ->
  (exists n, Packed.countNeighbors r c s = Some (n, s) /\ 0 <= n < 9) /\
  (exists n, Grid.countNeighbors r c g = Some (n, g) /\ 0 <= n < 9).
Proof.
  intros ([Hg _] & _) (Hgb & _) Hr Hc. unfold NUMROWS, NUMCOLS in *. split.
  - eexists. split; [now apply countNeighbors_run|].
    unfold Packed.neighbours.
    repeat match goal with
           | |- context [Z.b2z ?b] =>
               let H := fresh in
               pose proof (b2z_range b) as H; generalize dependent (Z.b2z b); intros
           end.
    lia.
  - eexists. split; [now apply grid_countNeighbors_run|].
    unfold Grid.neighbours.
    repeat match goal with
           | |- context [Z.b2z ?b] =>
               let H := fresh in
               pose proof (b2z_range b) as H; generalize dependent (Z.b2z b); intros
           end.
    lia.
Qed.

Lemma countNeighbors_range_witness :
  (exists n, Packed.countNeighbors 2 5 Packed.initial_state
             = Some (n, Packed.initial_state) /\ 0 <= n < 9) /\
  (exists n, Grid.countNeighbors 2 5 Grid.initial_state
             = Some (n, Grid.initial_state) /\ 0 <= n < 9).
Proof.
  apply (countNeighbors_range Packed.initial_state Grid.initial_state 2 5);
    [decide_it | decide_it | unfold NUMROWS; lia | unfold NUMCOLS; lia].
Defined.

Section PackedSeeding.
Import Packed.


Lemma toggle_byte (v c : Z) : is_byte (toggle v c).
Proof. unfold toggle. destruct (negb _); apply to_byte_range. Qed.

Lemma testbit_toggle (v c i : Z) :
  0 <= c < 8 -> 0 <= i < 8 ->
  Z.testbit (toggle v c) i = if i =? c then negb (Z.testbit v c) else Z.testbit v i.
Proof.
  intros Hc Hi. unfold toggle. rewrite bitRead_testbit, truthy_b2z by lia.
  destruct (Z.testbit v c) eqn:Hbit; cbn [negb];
    [rewrite testbit_bitClear by lia | rewrite testbit_bitSet by lia];
    (destruct (Z.ltb_spec i 8); [|lia]); cbn [andb];
    (destruct (Z.eqb_spec i c) as [->|Hne];
     [rewrite Hbit; reflexivity | destruct (Z.testbit v i); reflexivity]).
Qed.

Lemma cell_toggle_cell (b : list Z) (r c r' c' : Z) :
  length b = 8%nat -> 0 <= r < 8 -> 0 <= c < 8 -> 0 <= r' < 8 -> 0 <= c' < 8 ->
  cell (toggle_cell b (r, c)) r' c' =
  if (r' =? r) && (c' =? c) then negb (cell b r c) else cell b r' c'.
Proof.
  intros Hlen Hr Hc Hr' Hc'. unfold cell, toggle_cell. cbn [fst snd].
  rewrite (subscript_row_at b r) by lia.
  unfold subscript. destruct (Z.ltb_spec r' 0); [lia|].
  destruct (Z.eqb_spec r' r) as [->|Hne].
  - rewrite list_lookup_insert_eq by lia. rewrite testbit_toggle by lia.
    cbn [andb]. destruct (Z.eqb_spec c' c) as [->|]; [reflexivity|].
    unfold row_at. destruct (lookup_lt_is_Some_2 b (Z.to_nat r)) as [v ->]; [lia|].
    reflexivity.
  - rewrite list_lookup_insert_ne by lia. reflexivity.
Qed.

Lemma toggle_cell_board (b : list Z) (p : Z * Z) : board b -> board (toggle_cell b p).
Proof.
  intros [Hlen Hbytes]. split.
  - unfold toggle_cell. now rewrite length_insert.
  - unfold toggle_cell. apply Forall_insert; [exact Hbytes | apply toggle_byte].
Qed.

Section DrawsFacts.
Variable libc_random : Z -> Z * Z.
Hypothesis libc_random_range : forall st, 0 <= (libc_random st).1 <= RANDOM_MAX.

Lemma random_value_run (lo hi : Z) (s : state) :
  lo < hi ->
  random libc_random lo hi s =
  Some ((random_value libc_random lo hi (rng s)).1,
        set_rng (random_value libc_random lo hi (rng s)).2 s) /\
  lo <= (random_value libc_random lo hi (rng s)).1 < hi.
Proof.
  intros Hlt. unfold random, random_value.
  destruct (Z.geb_spec lo hi); [lia|].
  pose proof (libc_random_range (rng s)) as Hr.
  destruct (libc_random (rng s)) as [r next]. cbn in Hr. cbn [fst snd].
  split; [reflexivity|].
  pose proof (Z.rem_bound_pos r (hi - lo)). lia.
Qed.

Lemma draws_in_board n : forall rg,
  Forall (fun p => 0 <= p.1 < 8 /\ 0 <= p.2 < 8) (draws libc_random n rg).1.
Proof.
  induction n as [|n IH]; intros rg; [constructor|].
  cbn [draws].
  pose proof (random_value_run 0 NUMROWS (set_rng rg initial_state) ltac:(unfold NUMROWS; lia)) as [_ Hrow].
  cbn [rng set_rng] in Hrow.
  destruct (random_value libc_random 0 NUMROWS rg) as [row rg1].
  pose proof (random_value_run 0 NUMCOLS (set_rng rg1 initial_state) ltac:(unfold NUMCOLS; lia)) as [_ Hcol].
  cbn [rng set_rng] in Hcol.
  destruct (random_value libc_random 0 NUMCOLS rg1) as [col rg2].
  specialize (IH rg2). destruct (draws libc_random n rg2) as [ps rg'].
  cbn [fst snd] in *. constructor; [|exact IH]. unfold NUMROWS, NUMCOLS in *. cbn. lia.
Qed.

Lemma draws_length n rg : length (draws libc_random n rg).1 = n.
Proof.
  revert rg. induction n as [|n IH]; intros rg; [reflexivity|].
  cbn [draws].
  destruct (random_value libc_random 0 NUMROWS rg) as [row rg1].
  destruct (random_value libc_random 0 NUMCOLS rg1) as [col rg2].
  specialize (IH rg2). destruct (draws libc_random n rg2) as [ps rg'].
  cbn in *. now rewrite IH.
Qed.

(** One round toggles the drawn cell. *)
Lemma perturb_round_run (s : state) :
  length (gameboard s) = 8%nat ->
  (do row <- random libc_random 0 NUMROWS;
   do col <- random libc_random 0 NUMCOLS;
   do g <- load Gameboard row;
   if negb (truthy (bitRead g col))
   then do v <- load Gameboard row; store Gameboard row (bitSet v col)
   else do v <- load Gameboard row; store Gameboard row (bitClear v col)) s
  = Some (tt, set_rng (draws libc_random 1 (rng s)).2
                (set_array Gameboard
                   (fold_left toggle_cell (draws libc_random 1 (rng s)).1 (gameboard s)) s)).
Proof.
  intros Hg. cbn [draws].
  destruct (random_value_run 0 NUMROWS s ltac:(unfold NUMROWS; lia)) as [Hrow Hrow_range].
  rewrite (bind_run _ _ _ _ _ Hrow).
  destruct (random_value libc_random 0 NUMROWS (rng s)) as [row rg1]. cbn [fst snd] in *.
  destruct (random_value_run 0 NUMCOLS (set_rng rg1 s) ltac:(unfold NUMCOLS; lia))
    as [Hcol Hcol_range].
  rewrite (bind_run _ _ _ _ _ Hcol). cbn [rng set_rng] in *.
  destruct (random_value libc_random 0 NUMCOLS rg1) as [col rg2]. cbn [fst snd] in *.
  unfold NUMROWS in Hrow_range.
  match goal with |- context [bind (load Gameboard row) _ ?t] => set (s2 := t) end.
  assert (Hload : load Gameboard row s2 = Some (row_at (gameboard s) row, s2)).
  { apply load_run, subscript_row_at. cbn. lia. }
  rewrite (bind_run _ _ _ _ _ Hload).
  cbn [fold_left]. unfold toggle_cell, toggle. cbn [fst snd].
  destruct (negb (truthy (bitRead (row_at (gameboard s) row) col)));
    rewrite (bind_run _ _ _ _ _ Hload), store_run by (cbn; lia); reflexivity.
Qed.

Lemma draws_S n rg :
  draws libc_random (S n) rg =
  ((draws libc_random 1 rg).1 ++ (draws libc_random n (draws libc_random 1 rg).2).1,
   (draws libc_random n (draws libc_random 1 rg).2).2).
Proof.
  cbn [draws].
  destruct (random_value libc_random 0 NUMROWS rg) as [row rg1].
  destruct (random_value libc_random 0 NUMCOLS rg1) as [col rg2].
  cbn [draws fst snd].
  destruct (draws libc_random n rg2) as [ps rg']. reflexivity.
Qed.

Lemma perturb_rounds_run {A} (xs : list A) : forall s,
  length (gameboard s) = 8%nat ->
  for_each xs (fun _ =>
    do row <- random libc_random 0 NUMROWS;
    do col <- random libc_random 0 NUMCOLS;
    do g <- load Gameboard row;
    if negb (truthy (bitRead g col))
    then do v <- load Gameboard row; store Gameboard row (bitSet v col)
    else do v <- load Gameboard row; store Gameboard row (bitClear v col)) s
  = Some (tt, set_rng (draws libc_random (length xs) (rng s)).2
                (set_array Gameboard
                   (fold_left toggle_cell (draws libc_random (length xs) (rng s)).1
                      (gameboard s)) s)).
Proof.
  induction xs as [|x xs IH]; intros s Hg.
  - cbn. now destruct s.
  - rewrite for_each_cons, (bind_run _ _ _ _ _ (perturb_round_run s Hg)).
    rewrite IH.
    + change (length (x :: xs)) with (S (length xs)).
      rewrite (draws_S (length xs)). cbn [fst snd]. rewrite fold_left_app. reflexivity.
    + cbn [gameboard set_rng set_array].
      pose proof (draws_length 1 (rng s)) as Hlen1.
      destruct (draws libc_random 1 (rng s)).1 as [|p [|? ?]]; try discriminate.
      cbn [fold_left]. unfold toggle_cell. now rewrite length_insert.
Qed.


Theorem perturbInitialGameBoard_run (s : state) :
  length (gameboard s) = 8%nat ->
  perturbInitialGameBoard libc_random s =
  Some (tt,
        let '(k, rg1) := perturb_count libc_random (rng s) in
        let '(ps, rg') := draws libc_random (Z.to_nat k) rg1 in
        set_rng rg' (set_array Gameboard (fold_left toggle_cell ps (gameboard s)) s)).
Proof.
  intros Hg. unfold perturbInitialGameBoard, perturb_count.
  destruct (random_value_run 20 100 s ltac:(lia)) as [Hk Hk_range].
  rewrite (bind_run _ _ _ _ _ Hk).
  destruct (random_value libc_random 20 100 (rng s)) as [k rg1]. cbn [fst snd] in *.
  rewrite perturb_rounds_run by exact Hg.
  rewrite length_seqZ. cbn [rng set_rng gameboard].
  destruct (draws libc_random (Z.to_nat k) rg1) as [ps rg']. reflexivity.
Qed.

End DrawsFacts.


Lemma cell_toggled (ps : list (Z * Z)) : forall (b : list Z) (r c : Z),
  length b = 8%nat -> Forall (fun p => 0 <= p.1 < 8 /\ 0 <= p.2 < 8) ps ->
  0 <= r < 8 -> 0 <= c < 8 ->
  cell (fold_left toggle_cell ps b) r c =
  xorb (cell b r c) (Nat.odd (times_drawn r c ps)).
Proof.
  induction ps as [|[pr pc] ps IH]; intros b r c Hlen Hps Hr Hc.
  - cbn. now rewrite xorb_false_r.
  - inversion Hps as [|? ? [Hpr Hpc] Hps']; subst. cbn [fst snd] in *.
    cbn [fold_left].
    rewrite IH; [| unfold toggle_cell; now rewrite length_insert | exact Hps' | lia | lia].
    rewrite cell_toggle_cell by lia.
    unfold times_drawn. rewrite filter_cons.
    destruct (decide ((pr, pc) = (r, c))) as [Heq|Hne].
    + injection Heq as -> ->. rewrite !Z.eqb_refl. cbn [andb length].
      rewrite Nat.odd_succ, <- Nat.negb_odd.
      destruct (cell b r c), (Nat.odd _); reflexivity.
    + destruct (Z.eqb_spec r pr) as [->|]; destruct (Z.eqb_spec c pc) as [->|];
        cbn [andb]; try reflexivity. contradiction.
Qed.

Lemma fold_toggle_board (ps : list (Z * Z)) : forall b,
  board b -> board (fold_left toggle_cell ps b).
Proof.
  induction ps as [|p ps IH]; intros b Hb; [exact Hb|].
  cbn [fold_left]. apply IH. now apply toggle_cell_board.
Qed.

(** Toggling a cell twice gives the board back. *)
Lemma toggle_cell_twice (b : list Z) (r c : Z) :
  board b -> 0 <= r < NUMROWS -> 0 <= c < NUMCOLS ->
  toggle_cell (toggle_cell b (r, c)) (r, c) = b.
Proof.
  intros Hb Hr Hc. unfold NUMROWS, NUMCOLS in *.
  apply same_cells_eq; [now do 2 apply toggle_cell_board | exact Hb|].
  intros r' c' Hr' Hc'. unfold NUMROWS, NUMCOLS in *.
  destruct Hb as [Hlen _].
  rewrite !cell_toggle_cell; try lia; [| unfold toggle_cell; now rewrite length_insert].
  rewrite !Z.eqb_refl. cbn [andb].
  destruct (Z.eqb_spec r' r) as [->|]; destruct (Z.eqb_spec c' c) as [->|];
    cbn [andb]; try reflexivity. apply negb_involutive.
Qed.

Section PerturbFacts.
Variable libc_random : Z -> Z * Z.
Hypothesis libc_random_range : forall st, 0 <= (libc_random st).1 <= RANDOM_MAX.

(** X2.  [perturbInitialGameBoard] of the packed sketch draws a number of
    rounds in [20, 100) and then one [(row, col)] pair per round; it
    returns, and each cell of the board ends negated exactly when it was
    drawn an odd number of times.  Nothing but [gameboard] and the
    generator changes.  The C library's [random()] is assumed to return
    values of [0, RANDOM_MAX]. *)
Theorem perturbInitialGameBoard_toggles (s : state) :
  wf s ->
  let k := (perturb_count libc_random (rng s)).1 in
  let ps := (draws libc_random (Z.to_nat k) (perturb_count libc_random (rng s)).2).1 in
  20 <= k < 100 /\ length ps = Z.to_nat k /\
  exists s',
    perturbInitialGameBoard libc_random s = Some (tt, s') /\
    wf s' /\
    newgameboard s' = newgameboard s /\ oldgameboard s' = oldgameboard s /\
    ij s' = ij s /\ adc_reads s' = adc_reads s /\ trace s' = trace s /\
    forall r c, 0 <= r < NUMROWS -> 0 <= c < NUMCOLS ->
      cell (gameboard s') r c =
      xorb (cell (gameboard s) r c) (Nat.odd (times_drawn r c ps)).
Proof.
  intros (Hg & Hn & Ho & Hi) k ps.
  pose proof (random_value_run libc_random libc_random_range 20 100 s ltac:(lia)) as [_ Hk].
  fold (perturb_count libc_random (rng s)) in Hk. fold k in Hk.
  split; [exact Hk|]. split; [apply draws_length|].
  rewrite perturbInitialGameBoard_run by (exact libc_random_range || apply Hg).
  subst k ps.
  destruct (perturb_count libc_random (rng s)) as [k rg1]. cbn [fst snd] in *.
  pose proof (draws_in_board libc_random libc_random_range (Z.to_nat k) rg1) as Hin.
  destruct (draws libc_random (Z.to_nat k) rg1) as [ps rg']. cbn [fst snd] in *.
  eexists. split; [reflexivity|].
  cbn [gameboard newgameboard oldgameboard ij adc_reads trace set_rng set_array].
  split; [repeat split; try apply fold_toggle_board; assumption || apply Hg || apply Hn || apply Ho || apply Hi|].
  repeat (split; [reflexivity|]).
  intros r c Hr Hc. apply cell_toggled; [apply Hg | exact Hin | exact Hr | exact Hc].
Qed.

End PerturbFacts.

Lemma perturbInitialGameBoard_toggles_witness :
  let libc_random := fun st => (st * 7 mod 8191, st + 1) in
  let s := initial_state in
  let k := (perturb_count libc_random (rng s)).1 in
  let ps := (draws libc_random (Z.to_nat k) (perturb_count libc_random (rng s)).2).1 in
  20 <= k < 100 /\ length ps = Z.to_nat k /\
  exists s',
    perturbInitialGameBoard libc_random s = Some (tt, s') /\
    wf s' /\
    newgameboard s' = newgameboard s /\ oldgameboard s' = oldgameboard s /\
    ij s' = ij s /\ adc_reads s' = adc_reads s /\ trace s' = trace s /\
    forall r c, 0 <= r < NUMROWS -> 0 <= c < NUMCOLS ->
      cell (gameboard s') r c =
      xorb (cell (gameboard s) r c) (Nat.odd (times_drawn r c ps)).
Proof.
  apply (perturbInitialGameBoard_toggles (fun st => (st * 7 mod 8191, st + 1))).
  - intros st. cbn [fst]. pose proof (Z.mod_pos_bound (st * 7) 8191). unfold RANDOM_MAX. lia.
  - decide_it.
Defined.

End PackedSeeding.

(** ** Total-correctness triples *)


Lemma triple_ret {St A} (P : St -> Prop) (a : A) : triple P (ret a) (fun _ => P).
Proof. intros s Hs. now exists a, s. Qed.

Lemma triple_bind {St A B} (P : St -> Prop) (Q : A -> St -> Prop) (R : B -> St -> Prop)
    (m : M St A) (k : A -> M St B) :
  triple P m Q -> (forall a, triple (Q a) (k a) R) -> triple P (bind m k) R.
Proof.
  intros Hm Hk s Hs.
  destruct (Hm s Hs) as (a & s1 & Hrun1 & Hq).
  destruct (Hk a s1 Hq) as (b & s2 & Hrun2 & Hr).
  exists b, s2. now rewrite (bind_run _ _ _ _ _ Hrun1).
Qed.

Lemma triple_if {St A} (P : St -> Prop) (Q : A -> St -> Prop) (c : bool) (m1 m2 : M St A) :
  triple P m1 Q -> triple P m2 Q -> triple P (if c then m1 else m2) Q.
Proof. now destruct c. Qed.

Lemma triple_when {St} (P : St -> Prop) (c : bool) (m : M St unit) :
  triple P m (fun _ => P) -> triple P (when c m) (fun _ => P).
Proof. intros Hm. unfold when. apply triple_if; [exact Hm | apply triple_ret]. Qed.

Lemma triple_for_each {St A} (P : St -> Prop) (xs : list A) (body : A -> M St unit) :
  (forall x, triple P (body x) (fun _ => P)) -> triple P (for_each xs body) (fun _ => P).
Proof.
  intros Hbody. induction xs as [|x xs IH].
  - apply triple_ret.
  - intros s Hs. rewrite for_each_cons. revert s Hs.
    apply (triple_bind P (fun _ => P)); [apply Hbody | intros _; exact IH].
Qed.

Section PackedSafety.
Import Packed.


Lemma keeps_emit (P : state -> Prop) e :
  (forall s, P s -> P (add_trace [e] s)) -> triple P (emit e) (fun _ => P).
Proof. intros H s Hs. exists tt, (add_trace [e] s). split; [reflexivity | now apply H]. Qed.

Lemma keeps_setSprite (P : state -> Prop) a :
  (forall s, P s -> wf s) -> (forall evs s, P s -> P (add_trace evs s)) ->
  triple P (setSprite a) (fun _ => P).
Proof.
  intros Hwf H s Hs. eexists _, _. split; [|apply H, Hs].
  apply setSprite_run. destruct (Hwf s Hs) as ([? _] & [? _] & [? _] & [? _]).
  now destruct a.
Qed.

Lemma safe_calculateNewGameBoard : triple wf calculateNewGameBoard (fun _ => wf).
Proof.
  intros s (Hg & Hn & Ho & Hi).
  eexists _, _. split; [apply calculateNewGameBoard_run; apply Hg || apply Hn|].
  repeat split; cbn; first [apply advance_board | apply Hg | apply Ho | apply Hi].
Qed.

Lemma safe_swapGameBoards_loop : triple wf swapGameBoards_loop (fun _ => wf).
Proof.
  intros s (Hg & Hn & Ho & Hi).
  eexists _, _. split; [apply swapGameBoards_loop_run; apply Hg || apply Hn || apply Ho|].
  repeat split; cbn; first [apply Hn | apply Hg | apply Hi].
Qed.

Section SafetyEnvironment.
Variable analog_sample : nat -> Z -> Z.
Variable libc_random : Z -> Z * Z.

Lemma keeps_analogRead (P : state -> Prop) pin :
  (forall s, P s -> P (State (gameboard s) (newgameboard s) (oldgameboard s) (ij s)
                             (rng s) (S (adc_reads s)) (trace s))) ->
  triple P (analogRead analog_sample pin) (fun _ => P).
Proof. intros H s Hs. eexists _, _. split; [reflexivity | now apply H]. Qed.

Section WithRange.
Hypothesis libc_random_range : forall st, 0 <= (libc_random st).1 <= RANDOM_MAX.

Lemma safe_perturbInitialGameBoard :
  triple wf (perturbInitialGameBoard libc_random) (fun _ => wf).
Proof.
  intros s Hs.
  destruct (perturbInitialGameBoard_toggles libc_random libc_random_range s Hs)
    as (_ & _ & s' & Hrun & Hwf & _).
  now exists tt, s'.
Qed.

Lemma safe_randomSeed seed : triple wf (randomSeed seed) (fun _ => wf).
Proof.
  unfold randomSeed. apply triple_when.
  intros s Hs. eexists _, _. split; [reflexivity | exact Hs].
Qed.

Lemma safe_setUpInitialBoard :
  triple wf (setUpInitialBoard analog_sample libc_random) (fun _ => wf).
Proof.
  unfold setUpInitialBoard.
  apply (triple_bind wf (fun _ => wf)); [now apply keeps_analogRead | intros seed].
  apply (triple_bind wf (fun _ => wf)); [now apply keeps_emit | intros _].
  apply (triple_bind wf (fun _ => wf)); [now apply keeps_analogRead | intros pin].
  repeat apply triple_if;
    repeat (apply (triple_bind wf (fun _ => wf));
            [now apply keeps_emit || apply safe_randomSeed | intros _]);
    first [apply safe_perturbInitialGameBoard | now apply keeps_emit].
Qed.

Lemma safe_swapGameBoards :
  triple wf (swapGameBoards analog_sample libc_random) (fun _ => wf).
Proof.
  unfold swapGameBoards.
  apply (triple_bind wf (fun _ => wf)); [apply safe_swapGameBoards_loop|].
  intros [[stable dead] repeat].
  apply (triple_bind wf (fun _ => wf)).
  - apply triple_when. apply (triple_bind wf (fun _ => wf));
      [now apply keeps_setSprite | intros _; now apply keeps_emit].
  - intros _. apply triple_when.
    apply (triple_bind wf (fun _ => wf)); [now apply keeps_emit | intros _].
    apply (triple_bind wf (fun _ => wf)); [apply safe_setUpInitialBoard | intros _].
    now apply keeps_setSprite.
Qed.

Lemma safe_loop : triple wf (loop analog_sample libc_random) (fun _ => wf).
Proof.
  unfold loop, displayGameBoard.
  apply (triple_bind wf (fun _ => wf)); [now apply keeps_setSprite | intros _].
  apply (triple_bind wf (fun _ => wf)); [now apply keeps_emit | intros _].
  apply (triple_bind wf (fun _ => wf)); [apply safe_calculateNewGameBoard | intros _].
  apply safe_swapGameBoards.
Qed.

End WithRange.
End SafetyEnvironment.
End PackedSafety.

Section PackedLoop.
Import Packed.


Section PackedPasses.
Variable analog_sample : nat -> Z -> Z.
Variable libc_random : Z -> Z * Z.

(** X3.  However the analog pins read and whatever [random()] returns
    within its range, any number of passes of [loop()] from a well-formed
    state returns: no array is indexed out of bounds, and the state stays
    well formed. *)
Theorem loops_never_fault (k : nat) (s : state) :
  (forall st, 0 <= (libc_random st).1 <= RANDOM_MAX) ->
  wf s ->
  exists s', loops analog_sample libc_random k s = Some (tt, s') /\ wf s'.
Proof.
  intros Hrange. revert s. induction k as [|k IH]; intros s Hs.
  - now exists s.
  - destruct (safe_loop analog_sample libc_random Hrange s Hs) as ([] & s1 & Hrun & Hs1).
    destruct (IH s1 Hs1) as (s' & Hrest & Hs').
    exists s'. cbn [loops]. now rewrite (bind_run _ _ _ _ _ Hrun).
Qed.

Lemma setUpInitialBoard_basic_run (s : state) :
  analog_sample (S (adc_reads s)) RANDOMIZER_ANALOG_PIN <= 300 ->
  setUpInitialBoard analog_sample libc_random s =
  Some (tt, State (gameboard s) (newgameboard s) (oldgameboard s) (ij s) (rng s)
                  (S (S (adc_reads s)))
                  (trace s ++ [PinModeInput RANDOMIZER_ANALOG_PIN;
                               SerialPrintln "Using basic board."])).
Proof.
  intros Hpin. unfold setUpInitialBoard, analogRead.
  cbv beta delta [bind emit modify].
  cbn [gameboard newgameboard oldgameboard ij rng adc_reads trace].
  destruct (Z.gtb_spec (analog_sample (S (adc_reads s)) RANDOMIZER_ANALOG_PIN) 900); [lia|].
  destruct (Z.gtb_spec (analog_sample (S (adc_reads s)) RANDOMIZER_ANALOG_PIN) 300); [lia|].
  cbn [gameboard newgameboard oldgameboard ij rng adc_reads trace].
  now rewrite <- app_assoc.
Qed.

Section BasicBoard.
Hypothesis pin_low : forall n, analog_sample n RANDOMIZER_ANALOG_PIN <= 300.

Lemma keeps_setUpInitialBoard s0 :
  triple (same_boards s0) (setUpInitialBoard analog_sample libc_random)
         (fun _ => same_boards s0).
Proof.
  intros s Hs. eexists _, _.
  split; [apply setUpInitialBoard_basic_run, pin_low | exact Hs].
Qed.

Lemma loop_basic_run (s : state) :
  wf s ->
  exists s',
    loop analog_sample libc_random s = Some (tt, s') /\
    same_boards (State (advance (gameboard s)) (advance (gameboard s)) (gameboard s)
                       (ij s) (rng s) (adc_reads s) (trace s)) s'.
Proof.
  intros Hs. pose proof Hs as (Hg & Hn & Ho & Hi).
  set (s2 := State (advance (gameboard s)) (advance (gameboard s)) (gameboard s)
                   (ij s) (rng s) (adc_reads s) (trace s)).
  assert (H : triple (same_boards s) (loop analog_sample libc_random)
                     (fun _ => same_boards s2)).
  { unfold loop, displayGameBoard.
    apply (triple_bind _ (fun _ => same_boards s));
      [apply keeps_setSprite; [now intros ? [? _] | now intros] | intros _].
    apply (triple_bind _ (fun _ => same_boards s)); [now apply keeps_emit | intros _].
    apply (triple_bind _ (fun _ => same_boards (set_array Newgameboard (advance (gameboard s)) s))).
    { intros t ((Hg' & Hn' & Ho' & Hi') & Eg & En & Eo & Ei & Er).
      eexists _, _. split; [apply calculateNewGameBoard_run; apply Hg' || apply Hn'|].
      unfold same_boards, wf.
      cbn [gameboard newgameboard oldgameboard ij rng set_array].
      rewrite Eg. repeat split;
        first [assumption | apply advance_board | apply Hg | apply Ho' | apply Hi']. }
    intros _. unfold swapGameBoards.
    apply (triple_bind _ (fun _ => same_boards s2)).
    { intros t ((Hg' & Hn' & Ho' & Hi') & Eg & En & Eo & Ei & Er).
      eexists _, _.
      split; [apply swapGameBoards_loop_run; apply Hg' || apply Hn' || apply Ho'|].
      cbn [gameboard newgameboard oldgameboard ij rng set_array] in Eg, En, Eo, Ei, Er.
      unfold same_boards, wf, s2.
      cbn [gameboard newgameboard oldgameboard ij rng].
      rewrite En, Eg. repeat split;
        first [assumption | apply advance_board | apply Hg | apply Hn | apply Hi'
              | rewrite En; apply Hn' | rewrite Eg in Hg'; apply Hg' ]. }
    intros [[stable dead] repeat].
    apply (triple_bind _ (fun _ => same_boards s2)).
    - apply triple_when. apply (triple_bind _ (fun _ => same_boards s2));
        [apply keeps_setSprite; [now intros ? [? _] | now intros]
        | intros _; now apply keeps_emit].
    - intros _. apply triple_when.
      apply (triple_bind _ (fun _ => same_boards s2)); [now apply keeps_emit | intros _].
      apply (triple_bind _ (fun _ => same_boards s2)); [apply keeps_setUpInitialBoard | intros _].
      apply keeps_setSprite; [now intros ? [? _] | now intros]. }
  destruct (H s) as ([] & s' & Hrun & Hs'); [split; [exact Hs | now repeat split]|].
  now exists s'.
Qed.

(** X4.  With the randomizer pin at 0V (readings of at most 300), the
    reseed of [swapGameBoards] changes no board: after [k] passes of
    [loop()] the board is the [k]-th successor of the starting board and
    the generator is untouched.  In particular a still life stays on
    display for ever. *)
Theorem loops_basic_board (k : nat) (s : state) :
  wf s ->
  exists s',
    loops analog_sample libc_random k s = Some (tt, s') /\
    gameboard s' = Nat.iter k advance (gameboard s) /\
    rng s' = rng s /\
    (advance (gameboard s) = gameboard s -> gameboard s' = gameboard s).
Proof.
  revert s. induction k as [|k IH]; intros s Hs.
  - exists s. now repeat split.
  - destruct (loop_basic_run s Hs) as (s1 & Hrun & Hs1 & Eg & _ & _ & _ & Er).
    cbn in Eg, Er.
    destruct (IH s1 Hs1) as (s' & Hrest & Eg' & Er' & Hstill).
    exists s'. cbn [loops]. rewrite (bind_run _ _ _ _ _ Hrun).
    split; [exact Hrest|]. rewrite Eg in *. 
    split; [now rewrite Eg', Nat.iter_succ_r|].
    split; [congruence|].
    intros Hfix. rewrite Hfix in *. now apply Hstill.
Qed.

End BasicBoard.

(** X5.  With the randomizer pin above 300 (5V or 3.3V alike, the EEPROM
    code being compiled out) and a nonzero seed reading,
    [setUpInitialBoard] returns a state that does not depend on the state
    of the generator before the call: the perturbation is reproducible
    from the seed. *)
Theorem setUpInitialBoard_reseeds (s : state) (rg : Z) :
  (forall st, 0 <= (libc_random st).1 <= RANDOM_MAX) ->
  wf s ->
  analog_sample (S (adc_reads s)) RANDOMIZER_ANALOG_PIN > 300 ->
  to_ulong (analog_sample (adc_reads s) UNCONNECTED_ANALOG_PIN) <> 0 ->
  exists s',
    setUpInitialBoard analog_sample libc_random s = Some (tt, s') /\
    setUpInitialBoard analog_sample libc_random (set_rng rg s) = Some (tt, s') /\
    wf s'.
Proof.
  intros Hrange Hs Hpin Hseed.
  destruct (safe_setUpInitialBoard analog_sample libc_random Hrange s Hs)
    as ([] & s' & Hrun & Hs').
  exists s'. split; [exact Hrun|]. split; [|exact Hs'].
  rewrite <- Hrun. unfold setUpInitialBoard, analogRead.
  cbv beta delta [bind emit modify set_rng].
  cbn [gameboard newgameboard oldgameboard ij rng adc_reads trace].
  assert (Hseeded : forall t1 t2 : state,
    gameboard t1 = gameboard t2 -> newgameboard t1 = newgameboard t2 ->
    oldgameboard t1 = oldgameboard t2 -> ij t1 = ij t2 ->
    adc_reads t1 = adc_reads t2 -> trace t1 = trace t2 ->
    match randomSeed (analog_sample (adc_reads s) UNCONNECTED_ANALOG_PIN) t1 with
    | Some (_, t) => perturbInitialGameBoard libc_random t
    | None => None
    end =
    match randomSeed (analog_sample (adc_reads s) UNCONNECTED_ANALOG_PIN) t2 with
    | Some (_, t) => perturbInitialGameBoard libc_random t
    | None => None
    end).
  { intros t1 t2 E1 E2 E3 E4 E5 E6. unfold randomSeed, when, modify.
    destruct (Z.eqb_spec (to_ulong (analog_sample (adc_reads s) UNCONNECTED_ANALOG_PIN)) 0);
      [contradiction|].
    cbn [negb]. now rewrite E1, E2, E3, E4, E5, E6. }
  destruct (analog_sample (S (adc_reads s)) RANDOMIZER_ANALOG_PIN >? 900).
  - now apply Hseeded.
  - destruct (Z.gtb_spec (analog_sample (S (adc_reads s)) RANDOMIZER_ANALOG_PIN) 300); [|lia].
    now apply Hseeded.
Qed.

End PackedPasses.

Lemma loops_never_fault_witness :
  exists s',
    loops (fun n pin => 1023 - Z.of_nat n) (fun st => (st * 7 mod 8191, st + 1)) 3
      initial_state = Some (tt, s') /\ wf s'.
Proof.
  apply (loops_never_fault (fun n pin => 1023 - Z.of_nat n)
           (fun st => (st * 7 mod 8191, st + 1)) 3 initial_state).
  - intros st. cbn [fst]. pose proof (Z.mod_pos_bound (st * 7) 8191). unfold RANDOM_MAX. lia.
  - decide_it.
Defined.

Lemma loops_basic_board_witness :
  exists s',
    loops (fun _ _ => 0) (fun st => (st, st)) 4 (started_with [0; 0; 0; 24; 24; 0; 0; 0])
      = Some (tt, s') /\
    gameboard s' = Nat.iter 4 advance (gameboard (started_with [0; 0; 0; 24; 24; 0; 0; 0])) /\
    rng s' = rng (started_with [0; 0; 0; 24; 24; 0; 0; 0]) /\
    (advance (gameboard (started_with [0; 0; 0; 24; 24; 0; 0; 0]))
       = gameboard (started_with [0; 0; 0; 24; 24; 0; 0; 0]) ->
     gameboard s' = gameboard (started_with [0; 0; 0; 24; 24; 0; 0; 0])).
Proof.
  apply (loops_basic_board (fun _ _ => 0) (fun st => (st, st))).
  - intros n. lia.
  - decide_it.
Defined.

Lemma setUpInitialBoard_reseeds_witness :
  exists s',
    setUpInitialBoard (fun _ _ => 1023) (fun st => (st * 7 mod 8191, st + 1)) initial_state
      = Some (tt, s') /\
    setUpInitialBoard (fun _ _ => 1023) (fun st => (st * 7 mod 8191, st + 1))
      (set_rng 77 initial_state) = Some (tt, s') /\
    wf s'.
Proof.
  apply (setUpInitialBoard_reseeds (fun _ _ => 1023) (fun st => (st * 7 mod 8191, st + 1))
           initial_state 77).
  - intros st. cbn [fst]. pose proof (Z.mod_pos_bound (st * 7) 8191). unfold RANDOM_MAX. lia.
  - decide_it.
  - lia.
  - vm_compute. discriminate.
Defined.

(** X6.  [setSprite] sends the eight rows of its array to the display, row
    [r] to column [7 - r], and changes nothing else. *)
Theorem setSprite_columns (a : array) (s : state) :
  length (get_array a s) = 8%nat ->
  exists s' evs,
    setSprite a s = Some (tt, s') /\
    gameboard s' = gameboard s /\ newgameboard s' = newgameboard s /\
    oldgameboard s' = oldgameboard s /\ ij s' = ij s /\
    rng s' = rng s /\ adc_reads s' = adc_reads s /\
    trace s' = trace s ++ evs /\ length evs = 8%nat /\
    forall r v, 0 <= r < 8 -> get_array a s !! Z.to_nat r = Some v ->
      evs !! Z.to_nat r = Some (SetColumn 0 (7 - r) v).
Proof.
  intros Hlen. eexists _, (sprite_events (get_array a s)).
  split; [now apply setSprite_run|].
  do 7 (split; [reflexivity|]).
  split; [unfold sprite_events; now rewrite length_fmap, length_seqZ|].
  intros r v Hr Hv. unfold sprite_events.
  rewrite list_lookup_fmap.
  assert (seqZ 0 8 !! Z.to_nat r = Some r) as ->.
  { rewrite lookup_seqZ. split; lia. }
  cbn. unfold row_at. now rewrite Hv.
Qed.

Lemma setSprite_columns_witness :
  exists s' evs,
    setSprite Ij initial_state = Some (tt, s') /\
    gameboard s' = gameboard initial_state /\ newgameboard s' = newgameboard initial_state /\
    oldgameboard s' = oldgameboard initial_state /\ ij s' = ij initial_state /\
    rng s' = rng initial_state /\ adc_reads s' = adc_reads initial_state /\
    trace s' = trace initial_state ++ evs /\ length evs = 8%nat /\
    forall r v, 0 <= r < 8 -> get_array Ij initial_state !! Z.to_nat r = Some v ->
      evs !! Z.to_nat r = Some (SetColumn 0 (7 - r) v).
Proof. apply (setSprite_columns Ij initial_state). reflexivity. Defined.

Lemma cell_all_dead (r c : Z) : 0 <= r < 8 -> cell all_dead r c = false.
Proof.
  intros Hr. unfold cell.
  destruct (subscript_in_range all_dead r ltac:(cbn; lia)) as [v Hv].
  rewrite Hv. apply subscript_lookup in Hv as [_ Hv].
  assert (v = 0) as ->.
  { unfold all_dead in Hv. now apply lookup_replicate in Hv as [-> _]. }
  apply Z.bits_0.
Qed.

Lemma all_dead_iff (b : list Z) :
  board b ->
  b = all_dead <->
  forall r c, 0 <= r < NUMROWS -> 0 <= c < NUMCOLS -> cell b r c = false.
Proof.
  intros Hb. split.
  - intros -> r c Hr _. now apply cell_all_dead.
  - intros Hdead. apply same_cells_eq; [exact Hb | now vm_compute; split; [|repeat constructor]|].
    intros r c Hr Hc. rewrite Hdead by assumption.
    symmetry. now apply cell_all_dead.
Qed.

(** X7.  The loop of [swapGameBoards] copies, it does not swap: the
    current board goes to [oldgameboard], the successor to [gameboard], and
    [newgameboard] keeps the successor.  It makes no external call. *)
Theorem swapGameBoards_loop_shifts (s : state) :
  wf s ->
  exists f s',
    swapGameBoards_loop s = Some (f, s') /\
    gameboard s' = newgameboard s /\ oldgameboard s' = gameboard s /\
    newgameboard s' = newgameboard s /\ ij s' = ij s /\
    rng s' = rng s /\ adc_reads s' = adc_reads s /\ trace s' = trace s.
Proof.
  intros (Hg & Hn & Ho & _).
  eexists _, _. split; [apply swapGameBoards_loop_run; apply Hg || apply Hn || apply Ho|].
  now repeat split.
Qed.

Lemma swapGameBoards_loop_shifts_witness :
  exists f s',
    swapGameBoards_loop initial_state = Some (f, s') /\
    gameboard s' = newgameboard initial_state /\ oldgameboard s' = gameboard initial_state /\
    newgameboard s' = newgameboard initial_state /\ ij s' = ij initial_state /\
    rng s' = rng initial_state /\ adc_reads s' = adc_reads initial_state /\
    trace s' = trace initial_state.
Proof. apply (swapGameBoards_loop_shifts initial_state). decide_it. Defined.

(** X8.  In [swapGameBoards], [dead] is true exactly when the current
    board has no live cell, and [repeat] exactly when the successor is
    cell for cell the previous board. *)
Theorem swapGameBoards_dead_repeat_iff (s : state) :
  wf s ->
  exists f s',
    swapGameBoards_loop s = Some (f, s') /\
    (dead_of f = true <->
     forall r c, 0 <= r < NUMROWS -> 0 <= c < NUMCOLS -> cell (gameboard s) r c = false) /\
    (repeat_of f = true <-> same_cells (newgameboard s) (oldgameboard s)).
Proof.
  intros (Hg & Hn & Ho & _).
  eexists _, _. split; [apply swapGameBoards_loop_run; apply Hg || apply Hn || apply Ho|].
  cbn [dead_of repeat_of fst snd]. rewrite !bool_decide_eq_true. split.
  - now apply all_dead_iff.
  - split.
    + intros <-. now intros r c _ _.
    + intros Hsame. symmetry. now apply same_cells_eq.
Qed.

Lemma swapGameBoards_dead_repeat_iff_witness :
  exists f s',
    swapGameBoards_loop initial_state = Some (f, s') /\
    (dead_of f = true <->
     forall r c, 0 <= r < NUMROWS -> 0 <= c < NUMCOLS ->
       cell (gameboard initial_state) r c = false) /\
    (repeat_of f = true <->
     same_cells (newgameboard initial_state) (oldgameboard initial_state)).
Proof. apply (swapGameBoards_dead_repeat_iff initial_state). decide_it. Defined.

(** X9.  On every cycle after the first, [repeat] is true exactly when the
    board of two cycles before comes back, that is when that board lies on
    a cycle of period one or two. *)
Theorem repeat_detects_period_two (s : state) :
  wf s ->
  exists f1 s1 f2 s2,
    cycle s = Some (f1, s1) /\ cycle s1 = Some (f2, s2) /\
    (repeat_of f2 = true <-> advance (advance (gameboard s)) = gameboard s).
Proof.
  intros ([Hg _] & [Hn _] & [Ho _] & _).
  eexists _, _, _, _.
  split; [now apply cycle_run|].
  split; [apply cycle_run; first [reflexivity | exact Hg]|].
  cbn [repeat_of snd gameboard oldgameboard].
  rewrite bool_decide_eq_true. split; congruence.
Qed.

Lemma repeat_detects_period_two_witness :
  exists f1 s1 f2 s2,
    cycle (started_with (blinker true 3 3)) = Some (f1, s1) /\
    cycle s1 = Some (f2, s2) /\
    (repeat_of f2 = true <->
     advance (advance (gameboard (started_with (blinker true 3 3))))
       = gameboard (started_with (blinker true 3 3))).
Proof. apply (repeat_detects_period_two (started_with (blinker true 3 3))). decide_it. Defined.

(** X10.  When the successor differs from both the current and the
    previous board and the current board is not all dead, [swapGameBoards]
    only shifts the boards: no sprite, no pause, no reseed, no analog
    conversion and no random draw. *)
Theorem swapGameBoards_quiet
    (analog_sample : nat -> Z -> Z) (libc_random : Z -> Z * Z) (s : state) :
  wf s ->
  newgameboard s <> gameboard s ->
  newgameboard s <> oldgameboard s ->
  gameboard s <> all_dead ->
  swapGameBoards analog_sample libc_random s =
  Some (tt, State (newgameboard s) (newgameboard s) (gameboard s)
                  (ij s) (rng s) (adc_reads s) (trace s)).
Proof.
  intros (Hg & Hn & Ho & _) Hmoved Hnew Halive. unfold swapGameBoards.
  rewrite (bind_run _ _ _ _ _
             (swapGameBoards_loop_run s ltac:(apply Hg) ltac:(apply Hn) ltac:(apply Ho))).
  rewrite !bool_decide_eq_false_2 by congruence. reflexivity.
Qed.

Lemma swapGameBoards_quiet_witness :
  swapGameBoards (fun _ _ => 1023) (fun st => (st, st))
    (set_array Newgameboard (advance (gameboard initial_state)) initial_state) =
  Some (tt, State (advance (gameboard initial_state)) (advance (gameboard initial_state))
                  (gameboard initial_state) (ij initial_state) (rng initial_state)
                  (adc_reads initial_state) (trace initial_state)).
Proof.
  apply (swapGameBoards_quiet (fun _ _ => 1023) (fun st => (st, st))
           (set_array Newgameboard (advance (gameboard initial_state)) initial_state)).
  - decide_it.
  - vm_compute. discriminate.
  - vm_compute. discriminate.
  - vm_compute. discriminate.
Defined.

End PackedLoop.

(** ** The grid sketch *)

Section GridMore.
Import Grid.


Lemma grid_load_newGameBoard_run s (r c : Z) :
  board (newGameBoard s) -> 0 <= r < 8 -> 0 <= c < 8 ->
  load_newGameBoard r c s = Some (cell (newGameBoard s) r c, s).
Proof.
  intros Hb Hr Hc. unfold load_newGameBoard, cell.
  destruct (grid_board_row _ r Hb Hr) as (cells & -> & Hlen).
  destruct (subscript_in_range cells c) as [b ->]; [lia|]. reflexivity.
Qed.

Lemma grid_store_gameBoard_run s (r c : Z) (b : bool) cells :
  0 <= r -> gameBoard s !! Z.to_nat r = Some cells ->
  0 <= c < Z.of_nat (length cells) ->
  store_gameBoard r c b s =
  Some (tt, set_gameBoard (<[Z.to_nat r := <[Z.to_nat c := b]> cells]> (gameBoard s)) s).
Proof.
  intros Hr Hcells Hc. unfold store_gameBoard.
  rewrite (lookup_subscript _ _ _ Hr Hcells). unfold in_bounds.
  destruct (Z.leb_spec 0 c); [|lia].
  destruct (Z.ltb_spec c (Z.of_nat (length cells))); [reflexivity | lia].
Qed.

Lemma grid_copy_columns (r : Z) cs : forall s cells,
  board (newGameBoard s) -> 0 <= r < 8 -> Forall (fun c => 0 <= c < 8) cs ->
  gameBoard s !! Z.to_nat r = Some cells -> length cells = 8%nat ->
  for_each cs (fun col => do b <- load_newGameBoard r col; store_gameBoard r col b) s =
  Some (tt, set_gameBoard
              (<[Z.to_nat r :=
                   fold_left (fun l c => <[Z.to_nat c := cell (newGameBoard s) r c]> l)
                             cs cells]>
                 (gameBoard s)) s).
Proof.
  induction cs as [|c cs IH]; intros s cells Hb Hr Hcs Hcells Hlen.
  - cbn. rewrite (list_insert_id _ _ _ Hcells). now destruct s.
  - inversion Hcs as [|? ? Hc Hcs']; subst.
    rewrite for_each_cons.
    assert (Hbody : (do b <- load_newGameBoard r c; store_gameBoard r c b) s =
      Some (tt, set_gameBoard
                  (<[Z.to_nat r := <[Z.to_nat c := cell (newGameBoard s) r c]> cells]>
                     (gameBoard s)) s)).
    { rewrite (bind_run _ _ _ _ _ (grid_load_newGameBoard_run s r c Hb Hr Hc)).
      apply grid_store_gameBoard_run; [lia | exact Hcells | lia]. }
    rewrite (bind_run _ _ _ _ _ Hbody).
    erewrite IH; [| exact Hb | exact Hr | exact Hcs' | | ].
    + cbn. now rewrite list_insert_insert_eq.
    + cbn. apply list_lookup_insert_eq. now apply lookup_lt_Some in Hcells.
    + now rewrite length_insert.
Qed.

Lemma grid_copy_rows rs : forall s,
  board (gameBoard s) -> board (newGameBoard s) ->
  Forall (fun r => 0 <= r < 8) rs ->
  for_each rs (fun row => for_each (seqZ 0 NUMCOLS)
                 (fun col => do b <- load_newGameBoard row col; store_gameBoard row col b)) s =
  Some (tt, set_gameBoard
              (fold_left (fun gb r =>
                            <[Z.to_nat r := cell (newGameBoard s) r <$> seqZ 0 NUMCOLS]> gb)
                         rs (gameBoard s)) s).
Proof.
  induction rs as [|r rs IH]; intros s Hb Hnew Hrs.
  - cbn. now destruct s.
  - inversion Hrs as [|? ? Hr Hrs']; subst.
    rewrite for_each_cons.
    destruct (grid_board_row _ r Hb Hr) as (cells & Hcells & Hlen).
    apply subscript_lookup in Hcells as [_ Hcells].
    rewrite (bind_run _ _ _ _ _
               (grid_copy_columns r (seqZ 0 NUMCOLS) s cells Hnew Hr
                  ltac:(now repeat constructor) Hcells Hlen)).
    unfold NUMCOLS at 1. rewrite index_fold_fmap by exact Hlen.
    rewrite IH; [reflexivity | | exact Hnew | exact Hrs'].
    destruct Hb as [Hb1 Hb2]. split; cbn.
    + now rewrite length_insert.
    + apply Forall_insert; [exact Hb2 | reflexivity].
Qed.

(** A board is the grid of its cells. *)
Lemma grid_cells_board (b : list (list bool)) :
  board b -> (fun r => cell b r <$> seqZ 0 NUMCOLS) <$> seqZ 0 NUMROWS = b.
Proof.
  intros [Hlen Hrows].
  apply (list_eq_same_length _ _ 8%nat); [exact Hlen | reflexivity|].
  intros i x cells Hi Hx Hcells.
  rewrite list_lookup_fmap in Hx.
  assert (seqZ 0 NUMROWS !! i = Some (Z.of_nat i)) as Hseq.
  { rewrite lookup_seqZ. unfold NUMROWS. split; lia. }
  rewrite Hseq in Hx. cbn [fmap option_fmap option_map] in Hx.
  assert (x = cell b (Z.of_nat i) <$> seqZ 0 NUMCOLS) as -> by congruence. clear Hx.
  rewrite Forall_lookup in Hrows. pose proof (Hrows _ _ Hcells) as Hlen'.
  apply (list_eq_same_length _ _ 8%nat); [exact Hlen' | reflexivity|].
  intros j u v Hj Hu Hv.
  rewrite list_lookup_fmap in Hu.
  assert (seqZ 0 NUMCOLS !! j = Some (Z.of_nat j)) as Hseq'.
  { rewrite lookup_seqZ. unfold NUMCOLS. split; lia. }
  rewrite Hseq' in Hu. cbn [fmap option_fmap option_map] in Hu.
  assert (u = cell b (Z.of_nat i) (Z.of_nat j)) as -> by congruence. clear Hu.
  unfold cell, subscript.
  destruct (Z.ltb_spec (Z.of_nat i) 0); [lia|]. rewrite Nat2Z.id, Hcells.
  destruct (Z.ltb_spec (Z.of_nat j) 0); [lia|]. now rewrite Nat2Z.id, Hv.
Qed.

Lemma grid_advance_board (b : list (list bool)) : board (advance b).
Proof.
  split; [reflexivity|]. unfold advance.
  apply Forall_fmap, Forall_forall. intros r _. reflexivity.
Qed.

(** X11.  [swapGameBoards] of the grid sketch copies [newGameBoard] into
    [gameBoard] cell by cell and changes nothing else. *)
Theorem grid_swapGameBoards_copies (s : state) :
  wf s ->
  exists s',
    swapGameBoards s = Some (tt, s') /\
    gameBoard s' = newGameBoard s /\ newGameBoard s' = newGameBoard s /\
    gameboard s' = gameboard s /\ rng s' = rng s /\
    adc_reads s' = adc_reads s /\ trace s' = trace s.
Proof.
  intros (Hb & Hn & _). eexists. split.
  - unfold swapGameBoards.
    rewrite grid_copy_rows; [| exact Hb | exact Hn | now repeat constructor].
    unfold NUMROWS at 1.
    rewrite (index_fold_fmap (fun r => cell (newGameBoard s) r <$> seqZ 0 NUMCOLS))
      by apply Hb.
    fold NUMROWS. rewrite grid_cells_board by exact Hn. reflexivity.
  - now repeat split.
Qed.

Lemma grid_swapGameBoards_copies_witness :
  exists s',
    swapGameBoards (set_newGameBoard (advance (gameBoard initial_state)) initial_state)
      = Some (tt, s') /\
    gameBoard s' = advance (gameBoard initial_state) /\
    newGameBoard s' = advance (gameBoard initial_state) /\
    gameboard s' = gameboard initial_state /\ rng s' = rng initial_state /\
    adc_reads s' = adc_reads initial_state /\ trace s' = trace initial_state.
Proof.
  apply (grid_swapGameBoards_copies
           (set_newGameBoard (advance (gameBoard initial_state)) initial_state)).
  decide_it.
Defined.

(** X12.  In the grid sketch, [calculateNewGameBoard] followed by
    [swapGameBoards], as [loop()] runs them, replaces the board by its
    successor under the rule of the game and keeps the state well
    formed. *)
Theorem grid_generation (s : state) :
  wf s ->
  exists s',
    (calculateNewGameBoard;; swapGameBoards) s = Some (tt, s') /\
    gameBoard s' = advance (gameBoard s) /\
    wf s' /\
    gameboard s' = gameboard s /\ rng s' = rng s /\
    adc_reads s' = adc_reads s /\ trace s' = trace s /\
    forall r c, 0 <= r < NUMROWS -> 0 <= c < NUMCOLS ->
      cell (gameBoard s') r c = life (cell (gameBoard s) r c) (neighbours (gameBoard s) r c).
Proof.
  intros (Hb & Hn & Hd).
  rewrite (bind_run _ _ _ _ _ (grid_calculateNewGameBoard_run s Hb Hn)).
  destruct (grid_swapGameBoards_copies (set_newGameBoard (advance (gameBoard s)) s))
    as (s' & Hrun & Eg & En & Ed & Er & Ea & Et).
  { repeat split; try apply Hb; try apply grid_advance_board; exact Hd. }
  exists s'. split; [exact Hrun|]. cbn in Eg, En, Ed, Er, Ea, Et.
  split; [exact Eg|].
  split; [unfold wf; rewrite Eg, En, Ed; repeat split; try apply grid_advance_board; exact Hd|].
  do 4 (split; [assumption|]).
  intros r c Hr Hc. rewrite Eg. now apply grid_cell_advance.
Qed.

Lemma grid_generation_witness :
  exists s',
    (calculateNewGameBoard;; swapGameBoards) initial_state = Some (tt, s') /\
    gameBoard s' = advance (gameBoard initial_state) /\
    wf s' /\
    gameboard s' = gameboard initial_state /\ rng s' = rng initial_state /\
    adc_reads s' = adc_reads initial_state /\ trace s' = trace initial_state /\
    forall r c, 0 <= r < NUMROWS -> 0 <= c < NUMCOLS ->
      cell (gameBoard s') r c =
      life (cell (gameBoard initial_state) r c) (neighbours (gameBoard initial_state) r c).
Proof. apply (grid_generation initial_state). decide_it. Defined.


Lemma testbit_pack_row (cells : list bool) : forall c,
  Z.testbit (pack_row cells) c = default false (subscript cells c).
Proof.
  induction cells as [|b cells IH]; intros c.
  - cbn. rewrite Z.bits_0. unfold subscript. now destruct (c <? 0).
  - cbn [pack_row fold_right]. fold (pack_row cells).
    unfold subscript. destruct (Z.ltb_spec c 0) as [Hneg|Hpos].
    + now rewrite Z.testbit_neg_r.
    + destruct (Z.eq_dec c 0) as [->|Hne].
      * now rewrite Z.testbit_0_r.
      * replace c with (Z.succ (c - 1)) at 1 by lia.
        rewrite Z.testbit_succ_r by lia. rewrite IH.
        unfold subscript. destruct (Z.ltb_spec (c - 1) 0); [lia|].
        replace (Z.to_nat c) with (S (Z.to_nat (c - 1))) by lia. reflexivity.
Qed.

Lemma pack_row_byte (cells : list bool) : length cells = 8%nat -> Packed.is_byte (pack_row cells).
Proof.
  intros Hlen.
  do 8 (destruct cells as [|[] cells]; [discriminate|..]); destruct cells; try discriminate;
    vm_compute; split; congruence.
Qed.

Lemma pack_board (b : list (list bool)) : Grid.board b -> Packed.board (pack b).
Proof.
  intros [Hlen Hrows]. split.
  - unfold pack. now rewrite length_fmap.
  - unfold pack. apply Forall_fmap. eapply Forall_impl; [exact Hrows|].
    intros cells. apply pack_row_byte.
Qed.

Lemma cell_pack (b : list (list bool)) (r c : Z) :
  Packed.cell (pack b) r c = Grid.cell b r c.
Proof.
  unfold Packed.cell, Grid.cell, pack, subscript.
  destruct (r <? 0); [reflexivity|].
  rewrite list_lookup_fmap. destruct (b !! Z.to_nat r) as [cells|]; [|reflexivity].
  cbn. apply testbit_pack_row.
Qed.

Lemma next_cell_pack (b : list (list bool)) (r c : Z) :
  Packed.next_cell (pack b) r c = Grid.next_cell b r c.
Proof.
  unfold Packed.next_cell, Grid.next_cell, Packed.neighbours, Grid.neighbours,
    Packed.alive, Grid.alive.
  now rewrite !cell_pack.
Qed.

(** The two successor functions agree through [pack]. *)
Lemma advance_pack (b : list (list bool)) :
  Grid.board b -> Packed.advance (pack b) = pack (Grid.advance b).
Proof.
  intros Hb.
  apply same_cells_eq; [apply advance_board | apply pack_board, grid_advance_board|].
  intros r c Hr Hc. unfold NUMROWS, NUMCOLS in *.
  rewrite cell_pack, cell_advance, grid_cell_advance by assumption.
  apply next_cell_pack.
Qed.

(** X13.  The two sketches compute the same generation: when the packed
    board holds the grid board with column [c] in bit [c], the target
    boards after [calculateNewGameBoard] correspond in the same way. *)
Theorem calculateNewGameBoard_sketches_agree (p : Packed.state) (s : state) :
  Packed.wf p -> wf s ->
  Packed.gameboard p = pack (gameBoard s) ->
  exists p' s',
    Packed.calculateNewGameBoard p = Some (tt, p') /\
    calculateNewGameBoard s = Some (tt, s') /\
    Packed.newgameboard p' = pack (newGameBoard s').
Proof.
  intros ([Hg _] & [Hn _] & _) (Hb & Hnb & _) Hpack.
  eexists _, _.
  split; [now apply calculateNewGameBoard_run|].
  split; [now apply grid_calculateNewGameBoard_run|].
  cbn [Packed.newgameboard Packed.set_array newGameBoard set_newGameBoard].
  rewrite Hpack. now apply advance_pack.
Qed.

Lemma calculateNewGameBoard_sketches_agree_witness :
  exists p' s',
    Packed.calculateNewGameBoard (Packed.started_with (pack (gameBoard initial_state)))
      = Some (tt, p') /\
    calculateNewGameBoard initial_state = Some (tt, s') /\
    Packed.newgameboard p' = pack (newGameBoard s').
Proof.
  apply (calculateNewGameBoard_sketches_agree
           (Packed.started_with (pack (gameBoard initial_state))) initial_state).
  - decide_it.
  - decide_it.
  - reflexivity.
Defined.


Lemma flip_cell_board (b : list (list bool)) (r c : Z) :
  board b -> 0 <= r < 8 -> board (flip_cell b (r, c)).
Proof.
  intros [Hlen Hrows] Hr. unfold flip_cell. cbn [fst snd]. split.
  - now rewrite length_insert.
  - apply Forall_insert; [exact Hrows|]. rewrite length_insert.
    destruct (lookup_lt_is_Some_2 b (Z.to_nat r)) as [cells E]; [lia|].
    rewrite E. cbn. rewrite Forall_lookup in Hrows. exact (Hrows _ _ E).
Qed.

Lemma cell_flip_cell (b : list (list bool)) (r c r' c' : Z) :
  board b -> 0 <= r < 8 -> 0 <= c < 8 -> 0 <= r' < 8 -> 0 <= c' < 8 ->
  cell (flip_cell b (r, c)) r' c' =
  if (r' =? r) && (c' =? c) then negb (cell b r c) else cell b r' c'.
Proof.
  intros Hb Hr Hc Hr' Hc'.
  destruct (grid_board_row b r Hb Hr) as (cells & Hcells & Hlen).
  pose proof Hcells as Hsub. apply subscript_lookup in Hcells as [_ Hcells].
  destruct Hb as [Hblen _].
  unfold flip_cell. cbn [fst snd]. rewrite Hcells. cbn [default]. unfold id.
  unfold cell at 1. unfold subscript at 1.
  destruct (Z.ltb_spec r' 0); [lia|].
  destruct (Z.eqb_spec r' r) as [->|Hne].
  - rewrite list_lookup_insert_eq by lia. cbn [andb]. unfold subscript.
    destruct (Z.ltb_spec c' 0); [lia|].
    destruct (Z.eqb_spec c' c) as [->|Hne].
    + now rewrite list_lookup_insert_eq by lia.
    + rewrite list_lookup_insert_ne by lia.
      unfold cell. rewrite Hsub. unfold subscript.
      destruct (Z.ltb_spec c' 0); [lia | reflexivity].
  - rewrite list_lookup_insert_ne by lia. cbn [andb].
    unfold cell, subscript. destruct (Z.ltb_spec r' 0); [lia | reflexivity].
Qed.

Lemma grid_cell_flipped (ps : list (Z * Z)) : forall (b : list (list bool)) (r c : Z),
  board b -> Forall (fun p => 0 <= p.1 < 8 /\ 0 <= p.2 < 8) ps ->
  0 <= r < 8 -> 0 <= c < 8 ->
  board (fold_left flip_cell ps b) /\
  cell (fold_left flip_cell ps b) r c =
  xorb (cell b r c) (Nat.odd (Packed.times_drawn r c ps)).
Proof.
  induction ps as [|[pr pc] ps IH]; intros b r c Hb Hps Hr Hc.
  - cbn. split; [exact Hb | now rewrite xorb_false_r].
  - inversion Hps as [|? ? [Hpr Hpc] Hps']; subst. cbn [fst snd] in *.
    cbn [fold_left].
    destruct (IH (flip_cell b (pr, pc)) r c) as [Hboard Hcell];
      [now apply flip_cell_board | exact Hps' | lia | lia |].
    split; [exact Hboard|]. rewrite Hcell, cell_flip_cell by (assumption || lia).
    unfold Packed.times_drawn. rewrite filter_cons.
    destruct (decide ((pr, pc) = (r, c))) as [Heq|Hne].
    + injection Heq as -> ->. rewrite !Z.eqb_refl. cbn [andb length].
      rewrite Nat.odd_succ, <- Nat.negb_odd.
      destruct (cell b r c), (Nat.odd _); reflexivity.
    + destruct (Z.eqb_spec r pr) as [->|]; destruct (Z.eqb_spec c pc) as [->|];
        cbn [andb]; try reflexivity. contradiction.
Qed.

Section GridPerturbFacts.
Variable libc_random : Z -> Z * Z.
Hypothesis libc_random_range : forall st, 0 <= (libc_random st).1 <= Packed.RANDOM_MAX.

Lemma grid_random_run (lo hi : Z) (s : state) :
  lo < hi ->
  random libc_random lo hi s =
  Some ((Packed.random_value libc_random lo hi (rng s)).1,
        set_rng (Packed.random_value libc_random lo hi (rng s)).2 s) /\
  lo <= (Packed.random_value libc_random lo hi (rng s)).1 < hi.
Proof.
  intros Hlt. unfold random, Packed.random_value.
  destruct (Z.geb_spec lo hi); [lia|].
  pose proof (libc_random_range (rng s)) as Hr.
  destruct (libc_random (rng s)) as [r next]. cbn in Hr. cbn [fst snd].
  split; [reflexivity|].
  pose proof (Z.rem_bound_pos r (hi - lo)). lia.
Qed.

Lemma grid_perturb_round_run (s : state) :
  board (gameBoard s) ->
  (do row <- random libc_random 0 NUMROWS;
   do col <- random libc_random 0 NUMCOLS;
   do b <- load_gameBoard row col;
   store_gameBoard row col (negb b)) s
  = Some (tt, set_rng (Packed.draws libc_random 1 (rng s)).2
                (set_gameBoard
                   (fold_left flip_cell (Packed.draws libc_random 1 (rng s)).1 (gameBoard s))
                   s)).
Proof.
  intros Hb. cbn [Packed.draws].
  destruct (grid_random_run 0 NUMROWS s ltac:(unfold NUMROWS; lia)) as [Hrow Hrow_range].
  rewrite (bind_run _ _ _ _ _ Hrow).
  destruct (Packed.random_value libc_random 0 NUMROWS (rng s)) as [row rg1].
  cbn [fst snd] in *.
  destruct (grid_random_run 0 NUMCOLS (set_rng rg1 s) ltac:(unfold NUMCOLS; lia))
    as [Hcol Hcol_range].
  rewrite (bind_run _ _ _ _ _ Hcol). cbn [rng set_rng] in *.
  destruct (Packed.random_value libc_random 0 NUMCOLS rg1) as [col rg2].
  cbn [fst snd] in *. unfold NUMROWS, NUMCOLS in Hrow_range, Hcol_range.
  match goal with |- context [bind (load_gameBoard row col) _ ?t] => set (s2 := t) end.
  rewrite (bind_run _ _ _ _ _ (grid_load_gameBoard_run s2 row col Hb Hrow_range Hcol_range)).
  destruct (grid_board_row _ row Hb Hrow_range) as (cells & Hcells & Hlen).
  apply subscript_lookup in Hcells as [_ Hcells].
  rewrite (grid_store_gameBoard_run s2 row col _ cells) by (lia || exact Hcells).
  cbn [fold_left]. unfold flip_cell. cbn [fst snd]. rewrite Hcells. reflexivity.
Qed.

Lemma grid_perturb_rounds_run {A} (xs : list A) : forall s,
  board (gameBoard s) ->
  for_each xs (fun _ =>
    do row <- random libc_random 0 NUMROWS;
    do col <- random libc_random 0 NUMCOLS;
    do b <- load_gameBoard row col;
    store_gameBoard row col (negb b)) s
  = Some (tt, set_rng (Packed.draws libc_random (length xs) (rng s)).2
                (set_gameBoard
                   (fold_left flip_cell (Packed.draws libc_random (length xs) (rng s)).1
                      (gameBoard s)) s)).
Proof.
  induction xs as [|x xs IH]; intros s Hb.
  - cbn. now destruct s.
  - rewrite for_each_cons, (bind_run _ _ _ _ _ (grid_perturb_round_run s Hb)).
    pose proof (draws_length libc_random 1 (rng s)) as Hlen1.
    pose proof (draws_in_board libc_random libc_random_range 1 (rng s)) as Hin1.
    rewrite IH.
    + change (length (x :: xs)) with (S (length xs)).
      rewrite (draws_S libc_random (length xs)). cbn [fst snd].
      rewrite fold_left_app. reflexivity.
    + cbn [gameBoard set_rng set_gameBoard].
      destruct (Packed.draws libc_random 1 (rng s)).1 as [|[pr pc] [|? ?]]; try discriminate.
      inversion Hin1 as [|? ? [Hpr _] _]; subst. cbn [fold_left].
      now apply flip_cell_board.
Qed.

(** X14.  [perturbInitialGameBoard] of the grid sketch does the same as
    that of the packed sketch: from the same generator it draws the same
    cells, and each cell ends negated exactly when it was drawn an odd
    number of times. *)
Theorem grid_perturbInitialGameBoard_toggles (s : state) :
  wf s ->
  let k := (Packed.perturb_count libc_random (rng s)).1 in
  let ps := (Packed.draws libc_random (Z.to_nat k)
               (Packed.perturb_count libc_random (rng s)).2).1 in
  20 <= k < 100 /\ length ps = Z.to_nat k /\
  exists s',
    perturbInitialGameBoard libc_random s = Some (tt, s') /\
    wf s' /\
    newGameBoard s' = newGameBoard s /\ gameboard s' = gameboard s /\
    adc_reads s' = adc_reads s /\ trace s' = trace s /\
    forall r c, 0 <= r < NUMROWS -> 0 <= c < NUMCOLS ->
      cell (gameBoard s') r c =
      xorb (cell (gameBoard s) r c) (Nat.odd (Packed.times_drawn r c ps)).
Proof.
  intros (Hb & Hn & Hd) k ps.
  destruct (grid_random_run 20 100 s ltac:(lia)) as [Hrun Hk].
  fold (Packed.perturb_count libc_random (rng s)) in Hk, Hrun. fold k in Hk.
  split; [exact Hk|]. split; [apply draws_length|].
  unfold perturbInitialGameBoard. rewrite (bind_run _ _ _ _ _ Hrun).
  rewrite grid_perturb_rounds_run by exact Hb.
  rewrite length_seqZ. cbn [rng set_rng gameBoard].
  subst k ps.
  destruct (Packed.perturb_count libc_random (rng s)) as [k rg1]. cbn [fst snd] in *.
  pose proof (draws_in_board libc_random libc_random_range (Z.to_nat k) rg1) as Hin.
  destruct (Packed.draws libc_random (Z.to_nat k) rg1) as [ps rg']. cbn [fst snd] in *.
  eexists. split; [reflexivity|].
  cbn [gameBoard newGameBoard gameboard adc_reads trace set_rng set_gameBoard].
  split.
  { split; [|split; [exact Hn | exact Hd]].
    now apply (grid_cell_flipped ps (gameBoard s) 0 0). }
  do 4 (split; [reflexivity|]).
  intros r c Hr Hc. now apply grid_cell_flipped.
Qed.

End GridPerturbFacts.

Lemma grid_perturbInitialGameBoard_toggles_witness :
  let libc_random := fun st => (st * 7 mod 8191, st + 1) in
  let s := initial_state in
  let k := (Packed.perturb_count libc_random (rng s)).1 in
  let ps := (Packed.draws libc_random (Z.to_nat k)
               (Packed.perturb_count libc_random (rng s)).2).1 in
  20 <= k < 100 /\ length ps = Z.to_nat k /\
  exists s',
    perturbInitialGameBoard libc_random s = Some (tt, s') /\
    wf s' /\
    newGameBoard s' = newGameBoard s /\ gameboard s' = gameboard s /\
    adc_reads s' = adc_reads s /\ trace s' = trace s /\
    forall r c, 0 <= r < NUMROWS -> 0 <= c < NUMCOLS ->
      cell (gameBoard s') r c =
      xorb (cell (gameBoard s) r c) (Nat.odd (Packed.times_drawn r c ps)).
Proof.
  apply (grid_perturbInitialGameBoard_toggles (fun st => (st * 7 mod 8191, st + 1))).
  - intros st. cbn [fst]. pose proof (Z.mod_pos_bound (st * 7) 8191).
    unfold Packed.RANDOM_MAX. lia.
  - decide_it.
Defined.

End GridMore.
